(** * Monster: production grammars with embedded forms

    A shallow embedding of the form compiler and evaluator of the
    [monster] package (the node constructors [formNode], [ruleNode],
    [rulesNode], [refNode], [termNode], ... of monster.go) and of the
    builtins [builtin.Let], [builtin.Inc] and [builtin.Bag].

    Go values of type [interface{}] are the inductive [Value]; a
    [*common.Form] is its name tag, its closure and its two weight
    fields.  A [common.Scope] is, as in the source, one flat map from
    strings to values: user bindings, the positional names [#0], [#1],
    ... and the entries [_globals], [_nonterminals], [_weights],
    [_random], [_bagdir] and [_prodfile] live side by side.  A panic is
    the result [Panic]; evaluation takes fuel, because a grammar may
    recurse for ever.

    Package common (forms, scopes, EvalForms) is not among the source
    files: what the program calls of it is modelled from the
    specification, and marked so. *)

From Stdlib Require Import ZArith Floats Ascii String.
From stdpp Require Import gmap strings list fin_maps pretty.

Set Warnings "-register-all".
Set Default Proof Using "Type".

(** ** Values, forms and closures *)

(** The state of a [*rand.Rand] of [math/rand]: opaque to this package,
    represented by an integer code of the generator state. *)
Record Rand : Type := mkRand { rand_state : Z }.

(** The functions of package [builtin] that a form can wrap.  [BAbsent]
    stands for the builtins that are not part of this development
    (letr, global, range, rangef, ranget, choice, uuid, dec, len,
    sprintf). *)
Inductive Builtin : Type :=
| BLet
| BWeigh
| BBag
| BInc
| BAbsent (name : string).

(** The values of type [interface{}] that evaluation carries, forms and
    closures.  The struct [common.Form] is declared in package common,
    not among the source files; its fields are modelled from the spec:
    "a name tag", "an evaluator", "a weight (float) and restraint
    (float)".  The closure of a form is the constructor of [Fn] named
    after the function of monster.go that builds it, with the variables
    it captures. *)
Inductive Value : Type :=
| VNil
| VInt (n : Z)
| VFloat (f : float)
| VBool (b : bool)
| VStr (s : string)
| VList (vs : list Value)
| VForm (f : Form)
| VForms (fs : list Form)
| VNTForms (nts : gmap string (list Form))
| VWeights (ws : gmap string (list float))
| VScope (g : gmap string Value)
| VRand (r : Rand)
with Form : Type :=
| mkForm (Name : string) (fn : Fn) (weight restrain : float)
with Fn : Type :=
| fn_builtin (b : Builtin)
| fn_formNode_builtin (form : Form) (ns : list Form)
| fn_formNode_nonterm (name : string) (ns : list Form)
| fn_ruleNode (rats : list Form)
| fn_const (v : Value)
| fn_refNode (value : string)
| fn_identNode (name : string).

Abbreviation Scope := (gmap string Value).
Abbreviation NTForms := (gmap string (list Form)).

Definition Name (f : Form) : string := let 'mkForm n _ _ _ := f in n.
Definition fn (f : Form) : Fn := let 'mkForm _ c _ _ := f in c.
Definition weight (f : Form) : float := let 'mkForm _ _ w _ := f in w.
Definition restrain (f : Form) : float := let 'mkForm _ _ _ r := f in r.

Definition is_nil (v : Value) : bool :=
  match v with VNil => true | _ => false end.

(** ** Results: a value, a panic, or fuel exhausted *)

Inductive Res (A : Type) : Type :=
| Ok (a : A)
| Panic (msg : string)
| OutOfFuel.
Arguments Ok {A} a.
Arguments Panic {A} msg.
Arguments OutOfFuel {A}.

#[global] Instance Res_ret : MRet Res := fun A a => Ok a.
#[global] Instance Res_bind : MBind Res := fun A B k r =>
  match r with
  | Ok a => k a
  | Panic msg => Panic msg
  | OutOfFuel => OutOfFuel
  end.

Definition nl : string := String "010"%char EmptyString.

(** Go's run-time panics. *)
Definition index_out_of_range {A} : Res A := Panic "index out of range".
Definition interface_conversion {A} : Res A := Panic "interface conversion".
Definition nil_dereference {A} : Res A := Panic "nil pointer dereference".

(** ** Package common: forms *)

(** Modelled from the spec: [common.NewForm], which is not among the
    source files.  "constructs with default weight 0, restraint 0". *)
Definition NewForm (name : string) (c : Fn) : Form :=
  mkForm name c 0%float 0%float.

(** Modelled from the spec: [Form.SetWeight], not among the source
    files.  "set_weight(w, r) - overrides default; marks form as
    explicitly weighted": the form has no field but its weight to carry
    the mark, see [Form_SetDefaultWeight]. *)
Definition Form_SetWeight (f : Form) (w r : float) : Form :=
  mkForm (Name f) (fn f) w r.

(** Modelled from the spec: [Form.SetDefaultWeight], not among the
    source files.  "sets weight only if no explicit weight has been
    set".  A form has the two float fields weight and restraint and
    nothing else to record that a weight was set, and [ruleNode] calls
    [SetWeight] on every rule, with (0, 0) when the alternative carries
    no [weigh]; so the weight is explicit when it differs from the
    default 0 of [NewForm]. *)
Definition Form_SetDefaultWeight (f : Form) (w : float) : Form :=
  if PrimFloat.eqb (weight f) 0%float
  then mkForm (Name f) (fn f) w (restrain f)
  else f.

(** ** Package common: scopes *)

(** Modelled from the spec: [Scope.Get], not among the source files.
    "A name can be resolved by Get(name) through local first, then
    global."  The result is the value and the flag that tells that it
    came from the global layer, kept under the key [_globals]; [None]
    is the source's [ok = false]. *)
Definition Scope_Get (sc : Scope) (name : string) : option (Value * bool) :=
  match sc !! name with
  | Some v => Some (v, false)
  | None =>
      match sc !! "_globals" with
      | Some (VScope g) =>
          match g !! name with
          | Some v => Some (v, true)
          | None => None
          end
      | _ => None
      end
  end.

(** Modelled from the spec: [Scope.Set], not among the source files.
    "Set(name, value, global=true) writes to _globals; global=false
    writes to the current local layer." *)
Definition Scope_Set (sc : Scope) (name : string) (v : Value) (global : bool) : Scope :=
  if global then
    match sc !! "_globals" with
    | Some (VScope g) => <["_globals" := VScope (<[name := v]> g)]> sc
    | _ => <["_globals" := VScope {[name := v]}]> sc
    end
  else <[name := v]> sc.

(** Modelled from the spec: [Scope.GetString], not among the source
    files: [Get] for an entry that holds a string. *)
Definition Scope_GetString (sc : Scope) (name : string) : option (string * bool) :=
  match Scope_Get sc name with
  | Some (VStr s, g) => Some (s, g)
  | _ => None
  end.

(** Modelled from the spec: [Scope.GetNonTerminal], not among the source
    files: the rule forms of a nonterminal, from the table kept under
    [_nonterminals]. *)
Definition Scope_GetNonTerminal (sc : Scope) (name : string) : option (list Form) :=
  match sc !! "_nonterminals" with
  | Some (VNTForms nts) => nts !! name
  | _ => None
  end.

(** Modelled from the spec: [Scope.GetRandom], not among the source
    files: the generator kept under [_random]. *)
Definition Scope_GetRandom (sc : Scope) : option Rand :=
  match sc !! "_random" with
  | Some (VRand r) => Some r
  | _ => None
  end.

(** The generator after a draw, put back under [_random]: in Go the
    draw changes the generator that the entry points to. *)
Definition Scope_SetRandom (sc : Scope) (r : Rand) : Scope :=
  <["_random" := VRand r]> sc.

(** Modelled from the spec: the running weights of a nonterminal with
    [R] rules, which package common keeps in the scope under [_weights]:
    "initialized to zero on first encounter". *)
Definition Scope_GetWeights (sc : Scope) (name : string) (R : nat) : list float :=
  match sc !! "_weights" with
  | Some (VWeights ws) => default (replicate R 0%float) (ws !! name)
  | _ => replicate R 0%float
  end.

(** Modelled from the spec: the running weights of a nonterminal
    written back to the scope. *)
Definition Scope_SetWeights (sc : Scope) (name : string) (W : list float) : Scope :=
  match sc !! "_weights" with
  | Some (VWeights ws) => <["_weights" := VWeights (<[name := W]> ws)]> sc
  | _ => <["_weights" := VWeights {[name := W]}]> sc
  end.

(** The evaluation state: the scope in use, and the package variable
    [cacheBagRecords] of bag.go. *)
Record State : Type := mkState {
  scope : Scope;
  cacheBagRecords : gmap string (list (list string))
}.

Definition with_scope (st : State) (sc : Scope) : State :=
  mkState sc (cacheBagRecords st).

(** [strconv.Itoa] on a loop index. *)
Definition Itoa (i : nat) : string := pretty i.

(** [int64] addition. *)
Definition wrap64 (z : Z) : Z := ((z + 2 ^ 63) mod 2 ^ 64 - 2 ^ 63)%Z.
Definition add64 (a b : Z) : Z := wrap64 (a + b).

(** A [*parsec.Terminal]: the name of the token and the matched text. *)
Record Terminal : Type := mkTerminal { Terminal_Name : string; Terminal_Value : string }.

(** What [ruletokNode] and [formtokNode] tell apart in a parsec node. *)
Inductive ParsecNode : Type :=
| PTerminal (n : Terminal)
| PString (n : string)
| PForm (n : Form)
| POther.

(** ** What the program takes from outside

    The functions of Go's standard library that the program calls, and
    the builtins whose source is not part of this development. *)
Class GoLib : Type := {
  (** [fmt.Sprintf("%v", val)]. *)
  fmt_v : Value -> string;
  (** [rnd.Intn(n)] and [rnd.Float64()] of [math/rand]: the number drawn
      and the generator after the draw. *)
  rand_Intn : Rand -> Z -> Z * Rand;
  rand_Float64 : Rand -> float * Rand;
  (** [filepath.IsAbs], [filepath.Join] of two elements, [filepath.Dir],
      and [filepath.Abs], [None] when it returns an error. *)
  filepath_IsAbs : string -> bool;
  filepath_Join : string -> string -> string;
  filepath_Dir : string -> string;
  filepath_Abs : string -> option string;
  (** [os.Open]: the content of the file, [None] when it cannot be
      opened; [csv.NewReader(fd).ReadAll()]: the records, [None] on an
      error. *)
  os_Open : string -> option string;
  csv_ReadAll : string -> option (list (list string));
  (** The builtins of package [builtin] whose source is not part of this
      development, by name. *)
  absent_builtin : string -> Scope -> list Value -> Res (Value * Scope)
}.

(** ** An instance of the library functions

    Small stand-ins for the functions of Go's standard library, used to
    run the evaluator on concrete grammars. *)

Module Demo.

(** Renders strings, integers and booleans as [%v] does; the examples
    format no other value. *)
Definition Sprint (v : Value) : string :=
  match v with
  | VStr s => s
  | VInt n => pretty n
  | VBool true => "true"
  | VBool false => "false"
  | VNil => "<nil>"
  | _ => "?"
  end.

(** A counter as generator. *)
Definition Intn (r : Rand) (n : Z) : Z * Rand :=
  ((rand_state r mod n)%Z, mkRand (rand_state r + 1)).

Definition Float64 (r : Rand) : float * Rand :=
  ((PrimFloat.of_uint63 (Uint63.of_Z (rand_state r mod 4)) / 4)%float,
   mkRand (rand_state r + 1)).

(** Unix paths. *)
Definition IsAbs (p : string) : bool :=
  match p with String "/" _ => true | _ => false end.

Definition Join (a b : string) : string :=
  if String.eqb a "" then b else a +:+ "/" +:+ b.

(** The directory of a path: the path up to its last slash. *)
Fixpoint up_to_last_slash (p : list ascii) : list ascii :=
  match p with
  | [] => []
  | c :: rest =>
      if existsb (Ascii.eqb "/") p then c :: up_to_last_slash rest else []
  end.

Definition Dir (p : string) : string :=
  match up_to_last_slash (list_ascii_of_string p) with
  | [] => "."
  | [c] => String c EmptyString
  | d => string_of_list_ascii (removelast d)
  end.

Definition Abs (p : string) : option string :=
  Some (if IsAbs p then p else "/cwd/" +:+ p).

(** Comma-separated fields, one record per line, no quoting. *)
Fixpoint split_on (sep : ascii) (s : string) : list string :=
  match s with
  | EmptyString => [EmptyString]
  | String c rest =>
      if Ascii.eqb c sep then EmptyString :: split_on sep rest
      else match split_on sep rest with
           | field :: fields => String c field :: fields
           | [] => [String c EmptyString]
           end
  end.

Definition ReadAll (content : string) : option (list (list string)) :=
  Some (map (split_on ",")
            (List.filter (fun l => negb (String.eqb l "")) (split_on "010" content))).

(** Two bag files. *)
Definition Open (path : string) : option string :=
  if String.eqb path "/bags/names.csv" then Some ("alice,1" +:+ nl +:+ "bob,2" +:+ nl)
  else if String.eqb path "/bags/empty.csv" then Some ""
  else None.

(** No other builtin is installed. *)
Definition absent (name : string) (sc : Scope) (args : list Value) : Res (Value * Scope) :=
  Panic ("builtin " +:+ name +:+ " is not installed").

Definition lib : GoLib := {|
  fmt_v := Sprint;
  rand_Intn := Intn;
  rand_Float64 := Float64;
  filepath_IsAbs := IsAbs;
  filepath_Join := Join;
  filepath_Dir := Dir;
  filepath_Abs := Abs;
  os_Open := Open;
  csv_ReadAll := ReadAll;
  absent_builtin := absent
|}.

End Demo.

(** ** The evaluator *)

Section Monster.

Context `{GoLib}.

(** *** builtin.Let (let.go) *)

Fixpoint Let_loop (sc : Scope) (args : list Value) : Res Scope :=
  match args with
  | [] => Ok sc
  | VStr name :: rest =>
      match rest with
      | v :: rest' => Let_loop (Scope_Set sc name v false) rest'
      | [] => index_out_of_range
      end
  | _ :: _ => interface_conversion
  end.

Definition builtin_Let (st : State) (args : list Value) : Res (Value * State) :=
  sc ← Let_loop (scope st) args;
  Ok (VStr "", with_scope st sc).

(** *** builtin.Inc (inc.go) *)

Definition builtin_Inc (st : State) (args : list Value) : Res (Value * State) :=
  match args with
  | [] => index_out_of_range
  | VStr name :: rest =>
      by_ ← match rest with
            | [] => Ok 1%Z
            | VInt b :: _ => Ok b
            | _ :: _ => interface_conversion
            end;
      match Scope_Get (scope st) name with
      | Some (value, g) =>
          match value with
          | VInt v =>
              Ok (VStr "", with_scope st (Scope_Set (scope st) name (VInt (add64 v by_)) g))
          | _ => interface_conversion
          end
      | None => Ok (VStr "", st)
      end
  | _ :: _ => interface_conversion
  end.

(** *** builtin.Weigh *)

(** Modelled from the spec: [builtin.Weigh], not among the source files.
    "weigh(weight, restraint) - returns the pair [weight, restraint]". *)
Definition builtin_Weigh (st : State) (args : list Value) : Res (Value * State) :=
  match args with
  | w :: r :: _ => Ok (VList [w; r], st)
  | _ => index_out_of_range
  end.

(** *** builtin.Bag (bag.go) *)

(** The file name [Bag] hands to [filepath.Abs]. *)
Definition Bag_filename (sc : Scope) (filename : string) : string :=
  if negb (filepath_IsAbs filename) then
    match Scope_GetString sc "_bagdir" with
    | Some (bagdir, _) => filepath_Join bagdir filename
    | None =>
        match Scope_GetString sc "_prodfile" with
        | Some (prodfile, _) => filepath_Join (filepath_Dir prodfile) filename
        | None => filename
        end
    end
  else filename.

Definition readBag (filename : string) : Res (list (list string)) :=
  match os_Open filename with
  | None => Panic ("cannot open file " +:+ filename +:+ nl)
  | Some fd =>
      match csv_ReadAll fd with
      | Some records => Ok records
      | None => Panic ("unable to read file " +:+ filename +:+ " in CSV format" +:+ nl)
      end
  end.

(** The part of [Bag] after the records are at hand. *)
Definition Bag_pick (st : State) (records : list (list string)) : Res (Value * State) :=
  if (0 <? length records)%nat then
    match Scope_GetRandom (scope st) with
    | None => nil_dereference
    | Some rnd =>
        let '(k, rnd') := rand_Intn rnd (Z.of_nat (length records)) in
        let st' := with_scope st (Scope_SetRandom (scope st) rnd') in
        match (if (0 <=? k)%Z then records !! Z.to_nat k else None) with
        | None => index_out_of_range
        | Some record =>
            match record with
            | field :: _ => Ok (VStr field, st')
            | [] => Ok (VStr "", st')
            end
        end
    end
  else Ok (VStr "", st).

Definition builtin_Bag (st : State) (args : list Value) : Res (Value * State) :=
  match args with
  | [] => index_out_of_range
  | VStr filename :: _ =>
      match filepath_Abs (Bag_filename (scope st) filename) with
      | None => Panic ("bad filepath: " +:+ nl)
      | Some path =>
          match cacheBagRecords st !! path with
          | Some records => Bag_pick st records
          | None =>
              records ← readBag path;
              Bag_pick (mkState (scope st) (<[path := records]> (cacheBagRecords st))) records
          end
      end
  | _ :: _ => interface_conversion
  end.

Definition call_builtin (b : Builtin) (st : State) (args : list Value) : Res (Value * State) :=
  match b with
  | BLet => builtin_Let st args
  | BWeigh => builtin_Weigh st args
  | BBag => builtin_Bag st args
  | BInc => builtin_Inc st args
  | BAbsent name =>
      '(v, sc) ← absent_builtin name (scope st) args;
      Ok (v, with_scope st sc)
  end.

(** *** The tables of monster.go *)

Definition builtin_form (name : string) (b : Builtin) : string * Form :=
  (name, NewForm name (fn_builtin b)).

(** [initBuiltins]. *)
Definition builtins : gmap string Form :=
  list_to_map [
    builtin_form "let" BLet;
    builtin_form "letr" (BAbsent "letr");
    builtin_form "global" (BAbsent "global");
    builtin_form "weigh" BWeigh;
    builtin_form "bag" BBag;
    builtin_form "range" (BAbsent "range");
    builtin_form "rangef" (BAbsent "rangef");
    builtin_form "ranget" (BAbsent "ranget");
    builtin_form "choice" (BAbsent "choice");
    builtin_form "uuid" (BAbsent "uuid");
    builtin_form "inc" BInc;
    builtin_form "dec" (BAbsent "dec");
    builtin_form "len" (BAbsent "len");
    builtin_form "sprintf" (BAbsent "sprintf")
  ].

(** [initLiterals]. *)
Definition literals : gmap string string :=
  <["NL" := nl]> (<["DQ" := String "034"%char EmptyString]> ∅).

(** *** common.EvalForms: weighted rule selection *)

(** Modelled from the spec: the parts of [common.EvalForms].  The
    current weight of rule [i] is its running weight plus its weight;
    the rules that can be picked are those of step 1, each with its
    index and its current weight; step 3 sums them; step 5 walks
    them. *)
Definition current_weight (W : list float) (i : nat) (f : Form) : float :=
  (default 0 (W !! i) + weight f)%float.

Definition eligible (W : list float) (forms : list Form) : list (nat * float) :=
  omap (fun '(i, f) =>
          if ((0 <=? current_weight W i f) && (0 <? weight f))%float
          then Some (i, current_weight W i f) else None)
       (imap (fun i f => (i, f)) forms).

Definition total_weight (remaining : list (nat * float)) : float :=
  foldl (fun acc '(_, w) => (acc + w)%float) 0%float remaining.

Fixpoint pick_rule (u : float) (remaining : list (nat * float)) : option nat :=
  match remaining with
  | [] => None
  | (i, w) :: remaining' =>
      let u' := (u - w)%float in
      if (u' <=? 0)%float then Some i else pick_rule u' remaining'
  end.

(** Modelled from the spec: [common.EvalForms], not among the source
    files; the seven steps of the weighted selection algorithm.  [ev] is
    the evaluation of a form ([Form.Eval]). *)
Definition EvalForms (ev : Form -> State -> list Value -> Res (Value * State))
    (name : string) (st : State) (forms : list Form) : Res (Value * State) :=
  let R := length forms in
  let W0 := Scope_GetWeights (scope st) name R in
  (* steps 1 and 2 *)
  let '(W, remaining) :=
    match eligible W0 forms with
    | [] => (replicate R 0%float, eligible (replicate R 0%float) forms)
    | rem => (W0, rem)
    end in
  match remaining with
  | [] => Panic ("no rule of " +:+ name +:+ " has a positive weight" +:+ nl)
  | _ :: _ =>
      match Scope_GetRandom (scope st) with
      | None => nil_dereference
      | Some rnd =>
          (* steps 3 and 4 *)
          let '(x, rnd') := rand_Float64 rnd in
          let u := (x * total_weight remaining)%float in
          (* step 5 *)
          match pick_rule u remaining with
          | None => Panic ("no rule of " +:+ name +:+ " was picked" +:+ nl)
          | Some k =>
              match forms !! k with
              | None => index_out_of_range
              | Some rule =>
                  (* step 6 *)
                  let W' := <[k := (default 0 (W !! k) - restrain rule)%float]> W in
                  let sc := Scope_SetWeights (Scope_SetRandom (scope st) rnd') name W' in
                  (* step 7 *)
                  ev rule (with_scope st sc) []
              end
          end
      end
  end.

(** *** The closures of monster.go *)

(** The loop of the closure built by [formNode] for a builtin: the
    arguments are evaluated in order. *)
Fixpoint formNode_args (ev : Form -> State -> list Value -> Res (Value * State))
    (ns : list Form) (st : State) : Res (list Value * State) :=
  match ns with
  | [] => Ok ([], st)
  | n :: ns' =>
      '(v, st1) ← ev n st [];
      '(vs, st2) ← formNode_args ev ns' st1;
      Ok (v :: vs, st2)
  end.

(** The loop of the closure built by [ruleNode], from index [i] on with
    [str] accumulated so far. *)
Fixpoint ruleNode_loop (ev : Form -> State -> list Value -> Res (Value * State))
    (rats : list Form) (i : nat) (str : string) (st : State) : Res (Value * State) :=
  match rats with
  | [] => Ok (VStr str, st)
  | rat :: rats' =>
      '(val, st1) ← ev rat st [];
      if is_nil val then Ok (VNil, st1)
      else
        ruleNode_loop ev rats' (S i) (str +:+ fmt_v val)
          (with_scope st1 (Scope_Set (scope st1) ("#" +:+ Itoa i) val false))
  end.

(** The closure shared by [formNode] (the nonterminal case) and
    [identNode]; they differ in the message of the panic. *)
Definition eval_nonterminal (ev : Form -> State -> list Value -> Res (Value * State))
    (what name : string) (st : State) : Res (Value * State) :=
  match Scope_GetNonTerminal (scope st) name with
  | Some forms =>
      '(val, st1) ← EvalForms ev name st forms;
      Ok (val, with_scope st1 (Scope_Set (scope st1) name val false))
  | None => Panic (what +:+ name +:+ nl)
  end.

(** The closure built by [refNode]. *)
Definition eval_ref (value : string) (st : State) : Res (Value * State) :=
  match value with
  | EmptyString => index_out_of_range
  | String c rest =>
      if Ascii.eqb c "$" then
        match Scope_Get (scope st) rest with
        | Some (val, _) => Ok (val, st)
        | None => Panic ("unknown reference " +:+ value +:+ nl)
        end
      else if Ascii.eqb c "#" then
        match Scope_Get (scope st) value with
        | Some (val, _) => Ok (val, st)
        | None => Panic ("unknown argument " +:+ value +:+ nl)
        end
      else Panic ("unknown form " +:+ value +:+ " as part of rule" +:+ nl)
  end.

(** [Form.Eval]: the form's closure applied to the scope and the
    arguments.  Each call takes one unit of fuel. *)
Fixpoint Form_Eval (fuel : nat) (f : Form) (st : State) (args : list Value)
    {struct fuel} : Res (Value * State) :=
  match fuel with
  | O => OutOfFuel
  | S fuel' =>
      match fn f with
      | fn_builtin b => call_builtin b st args
      | fn_formNode_builtin form ns =>
          '(args', st1) ← formNode_args (Form_Eval fuel') ns st;
          Form_Eval fuel' form st1 args'
      | fn_formNode_nonterm name _ =>
          eval_nonterminal (Form_Eval fuel') "unknown form name " name st
      | fn_ruleNode rats => ruleNode_loop (Form_Eval fuel') rats 0 "" st
      | fn_const v => Ok (v, st)
      | fn_refNode value => eval_ref value st
      | fn_identNode name =>
          eval_nonterminal (Form_Eval fuel') "unknown nonterminal " name st
      end
  end.

(** ** The node constructors of monster.go *)

(** [formNode], on the name of the form and its argument forms. *)
Definition formNode (name : string) (ns : list Form) : Form :=
  match builtins !! name with
  | Some form => NewForm name (fn_formNode_builtin form ns)
  | None => NewForm ("#" +:+ name) (fn_formNode_nonterm name ns)
  end.

(** The loop of [BuildContext] that checks the names of the
    nonterminals against the builtins: the names it warns about. *)
Definition BuildContext_warnings (nts : NTForms) : gset string :=
  dom nts ∩ dom builtins.

(** [rs[i].(float64)]. *)
Definition float_at (rs : list Value) (i : nat) : Res float :=
  match rs !! i with
  | None => index_out_of_range
  | Some (VFloat x) => Ok x
  | Some _ => interface_conversion
  end.

(** The first half of [ruleNode]: the weight, the restraint and the
    tokens of the rule body.  The [weigh] form is evaluated in the scope
    [make(common.Scope)]; of the state it leaves only the bag cache, a
    package variable, outlives the call. *)
Definition ruleNode_weight (fuel : nat) (cache : gmap string (list (list string)))
    (ns : list Form)
    : Res (float * float * list Form * gmap string (list (list string))) :=
  match ns with
  | weigh :: (_ :: _) as ns' =>
      if String.eqb (Name weigh) "weigh" then
        '(v, st) ← Form_Eval fuel weigh (mkState ∅ cache) [];
        match v with
        | VList rs =>
            w ← float_at rs 0;
            r ← float_at rs 1;
            Ok (w, r, ns', cacheBagRecords st)
        | _ => interface_conversion
        end
      else Ok (0%float, 0%float, ns, cache)
  | _ => Ok (0%float, 0%float, ns, cache)
  end.

(** [ruleNode], on the forms of the tokens of one alternative. *)
Definition ruleNode (fuel : nat) (cache : gmap string (list (list string)))
    (ns : list Form) : Res (Form * gmap string (list (list string))) :=
  '(w, r, rats, cache') ← ruleNode_weight fuel cache ns;
  Ok (Form_SetWeight (NewForm "##rule" (fn_ruleNode rats)) w r, cache').

(** [float64(len(ns))]. *)
Definition float64_of_len (n : nat) : float :=
  PrimFloat.of_uint63 (Uint63.of_Z (Z.of_nat n)).

(** [rulesNode], on the rule forms of the alternatives. *)
Definition rulesNode (ns : list Form) : list Form :=
  let w := (1 / float64_of_len (length ns))%float in
  map (fun rule => Form_SetDefaultWeight rule w) ns.

(** [ntermNode] and [ntermsNode]. *)
Definition ntermNode (t : Terminal) (rules : list Form) : string * list Form :=
  (Terminal_Value t, rules).

Definition ntermsNode (ns : list (string * list Form)) : NTForms :=
  foldl (fun ntls v => <[v.1 := v.2]> ntls) ∅ ns.

Definition termNode (n : Terminal) : Form :=
  let str := default "" (literals !! Terminal_Value n) in
  NewForm "##term" (fn_const (VStr str)).

Definition refNode (n : Terminal) : Form :=
  NewForm "##ref" (fn_refNode (Terminal_Value n)).

Definition identNode (n : Terminal) : Form :=
  NewForm "##ident" (fn_identNode (Terminal_Value n)).

(** [n[1 : len(n)-1]]. *)
Definition strip_quotes (n : string) : Res string :=
  if (2 <=? String.length n)%nat
  then Ok (substring 1 (String.length n - 2) n)
  else Panic "slice bounds out of range".

Definition ruletokNode (ns : list ParsecNode) : Res Form :=
  match ns with
  | [] => index_out_of_range
  | PTerminal n :: _ =>
      if String.eqb (Terminal_Name n) "IDENT" then Ok (identNode n)
      else if String.eqb (Terminal_Name n) "TERM" then Ok (termNode n)
      else if String.eqb (Terminal_Name n) "REF" then Ok (refNode n)
      else Panic ("unknown form type" +:+ nl)
  | PString n :: _ =>
      str ← strip_quotes n;
      Ok (NewForm "##string" (fn_const (VStr str)))
  | PForm n :: _ => Ok n
  | POther :: _ => Panic ("unknown form type" +:+ nl)
  end.

Definition formtokNode (ns : list ParsecNode) : Res Form :=
  match ns with
  | [] => index_out_of_range
  | PTerminal n :: _ =>
      if String.eqb (Terminal_Name n) "TERM" then Ok (termNode n)
      else if String.eqb (Terminal_Name n) "REF" then Ok (refNode n)
      else if String.eqb (Terminal_Name n) "FORMTOK"
      then Ok (NewForm "##formtok" (fn_const (VStr (Terminal_Value n))))
      else Panic ("unknown form type" +:+ nl)
  | PString n :: _ =>
      str ← strip_quotes n;
      Ok (NewForm "##string" (fn_const (VStr str)))
  | PForm n :: _ => Ok n
  | POther :: _ => Panic ("unknown form type" +:+ nl)
  end.

(** The form of a literal in a form argument, as [litNode] builds it
    from the parsed value. *)
Definition literalForm (val : Value) : Form :=
  NewForm "##literaltok" (fn_const val).

(** ** What the claims speak of *)

(** The sub-forms [rats], the first of them at index [i], evaluate in
    order from state [st] to the non-nil values [vals]; after each one
    its value is bound to the local name [#i]; [st'] is the state
    after the last binding. *)
Inductive rule_steps (ev : Form -> State -> list Value -> Res (Value * State))
    : nat -> list Form -> State -> list Value -> State -> Prop :=
| rule_steps_nil i st : rule_steps ev i [] st [] st
| rule_steps_cons i rat rats st val st1 vals st2 :
    ev rat st [] = Ok (val, st1) ->
    is_nil val = false ->
    rule_steps ev (S i) rats
      (with_scope st1 (<["#" +:+ Itoa i := val]> (scope st1))) vals st2 ->
    rule_steps ev i (rat :: rats) st (val :: vals) st2.

(** The argument forms [ns] evaluate in order from state [st] to the
    values [vals], leaving state [st']. *)
Inductive args_steps (ev : Form -> State -> list Value -> Res (Value * State))
    : list Form -> State -> list Value -> State -> Prop :=
| args_steps_nil st : args_steps ev [] st [] st
| args_steps_cons n ns st val st1 vals st2 :
    ev n st [] = Ok (val, st1) ->
    args_steps ev ns st1 vals st2 ->
    args_steps ev (n :: ns) st (val :: vals) st2.

(** The concatenation of the renderings of the values. *)
Definition concat_fmt (vals : list Value) : string :=
  foldr (fun val acc => fmt_v val +:+ acc) "" vals.

(** A sub-form that leaves every positional name [#j] as it finds it. *)
Definition keeps_positional (ev : Form -> State -> list Value -> Res (Value * State))
    (rat : Form) : Prop :=
  forall st val st' j,
    ev rat st [] = Ok (val, st') ->
    scope st' !! ("#" +:+ Itoa j) = scope st !! ("#" +:+ Itoa j).

(** The bag cache holds, for a path, the records of the file there. *)
Definition cache_ok (cache : gmap string (list (list string))) : Prop :=
  forall path records, cache !! path = Some records -> readBag path = Ok records.

(** The first field of some record. *)
Definition first_field (records : list (list string)) (s : string) : Prop :=
  exists fields, (s :: fields) ∈ records.




(** A name bound in neither layer of a scope. *)
Definition unbound (sc : Scope) (name : string) : Prop :=
  sc !! name = None /\
  forall g, sc !! "_globals" = Some (VScope g) -> g !! name = None.

(** The path resolution of [bag] in the words of its description: an
    absolute file name stands for itself, another one is taken relative
    to the [_bagdir] entry when the scope has one, and else relative to
    the directory of the [_prodfile] entry. *)
Inductive bag_resolves (sc : Scope) (filename : string) : string -> Prop :=
| bag_resolves_abs :
    filepath_IsAbs filename = true ->
    bag_resolves sc filename filename
| bag_resolves_bagdir bagdir g :
    filepath_IsAbs filename = false ->
    Scope_GetString sc "_bagdir" = Some (bagdir, g) ->
    bag_resolves sc filename (filepath_Join bagdir filename)
| bag_resolves_prodfile prodfile g :
    filepath_IsAbs filename = false ->
    Scope_GetString sc "_bagdir" = None ->
    Scope_GetString sc "_prodfile" = Some (prodfile, g) ->
    bag_resolves sc filename (filepath_Join (filepath_Dir prodfile) filename).

(** [r'] is [r], or [r] ran out of fuel. *)
Definition res_le {A : Type} (r r' : Res A) : Prop :=
  r = OutOfFuel \/ r = r'.

Definition ev_le (ev ev' : Form -> State -> list Value -> Res (Value * State)) : Prop :=
  forall f st args, res_le (ev f st args) (ev' f st args).

End Monster.

(** ** Sample tokens, rules and scopes *)

Module Sample.

Definition string_form (str : string) : Form :=
  NewForm "##string" (fn_const (VStr str)).

Definition formtok_form (value : string) : Form :=
  NewForm "##formtok" (fn_const (VStr value)).

Definition a_tok : Form := string_form "a".
Definition b_tok : Form := string_form "b".
Definition x_tok : Form := string_form "x".

(** [(weigh 0.5 0.25)]. *)
Definition weigh_tok : Form :=
  formNode "weigh" [literalForm (VFloat 0.5); literalForm (VFloat 0.25)].

(** The rule form of an alternative without annotation. *)
Definition plain_rule (ns : list Form) : Form :=
  NewForm "##rule" (fn_ruleNode ns).


Definition weighed_rule : Form := mkForm "##rule" (fn_ruleNode [x_tok]) 0.5 0.25.

Definition empty_state : State := mkState ∅ ∅.

(** A scope where [n] is 3 in the local layer. *)
Definition n3_state : State := mkState {["n" := VInt 3]} ∅.
Definition n4_state : State := mkState {["n" := VInt 4]} ∅.


(** A scope with a generator, a bag directory and a production file. *)
Definition bag_state : State :=
  mkState (<["_bagdir" := VStr "/bags"]>
             (<["_prodfile" := VStr "/prod/grammar.prod"]>
                (<["_random" := VRand (mkRand 1)]> {["_globals" := VScope ∅]}))) ∅.

(** A scope that has a nonterminal named like the builtin [inc]. *)
Definition collide_scope (n : Z) : Scope :=
  <["n" := VInt n]> {["_nonterminals" := VNTForms {["inc" := [plain_rule [x_tok]]]}]}.

(** The value of a result. *)
Definition value_of (r : Res (Value * State)) : Res Value :=
  '(v, _) ← r; Ok v.

(** A scope with a table of nonterminals, a generator, empty globals
    and no running weights yet. *)
Definition context (nts : NTForms) : State :=
  mkState (<["_nonterminals" := VNTForms nts]>
             (<["_weights" := VWeights ∅]>
                (<["_random" := VRand (mkRand 1)]> {["_globals" := VScope ∅]}))) ∅.

(** [s : "hello" .] *)
Definition hello_grammar : NTForms :=
  ntermsNode [ntermNode (mkTerminal "IDENT" "s") (rulesNode [plain_rule [string_form "hello"]])].

(** [s : (let n 3) a .  a : (inc n) $n .] *)
Definition counter_grammar : NTForms :=
  ntermsNode [
    ntermNode (mkTerminal "IDENT" "s")
      (rulesNode [plain_rule [formNode "let" [formtok_form "n"; literalForm (VInt 3)];
                              identNode (mkTerminal "IDENT" "a")]]);
    ntermNode (mkTerminal "IDENT" "a")
      (rulesNode [plain_rule [formNode "inc" [formtok_form "n"];
                              refNode (mkTerminal "REF" "$n")]])
  ].

End Sample.

(** ** More of the program *)

(** [strconv.ParseInt(s, base, 64)] and [strconv.ParseFloat(s, 64)],
    [None] when they return an error. *)
Class Strconv : Type := {
  strconv_ParseInt : string -> Z -> option Z;
  strconv_ParseFloat : string -> option float
}.

Section MonsterMore.

Context `{GoLib} `{Strconv}.

(** The value of a literal terminal in [litNode]: the [switch] on the
    name of the terminal, which has no default case, so that [val]
    stays nil for any other name.  The terminal is rendered in the
    messages by its text. *)
Definition litNode_value (t : Terminal) : Res Value :=
  let parse_int (base : Z) (what : string) : Res Value :=
    match strconv_ParseInt (Terminal_Value t) base with
    | Some z => Ok (VInt z)
    | None => Panic ("cannot parse " +:+ Terminal_Value t +:+ " for " +:+ what +:+ nl)
    end in
  if String.eqb (Terminal_Name t) "INT" then parse_int 10%Z "integer"
  else if String.eqb (Terminal_Name t) "HEX" then parse_int 16%Z "hexadecimal"
  else if String.eqb (Terminal_Name t) "OCT" then parse_int 8%Z "octal"
  else if String.eqb (Terminal_Name t) "FLOAT" then
    match strconv_ParseFloat (Terminal_Value t) with
    | Some x => Ok (VFloat x)
    | None => Panic ("cannot parse " +:+ Terminal_Value t +:+ " for float64" +:+ nl)
    end
  else if String.eqb (Terminal_Name t) "STRING" then
    str ← strip_quotes (Terminal_Value t); Ok (VStr str)
  else if String.eqb (Terminal_Name t) "TRUE" then Ok (VBool true)
  else if String.eqb (Terminal_Name t) "FALSE" then Ok (VBool false)
  else Ok VNil.

(** [litNode]: nil ([POther]) for no node, a string node as it is, and
    for a terminal the form of its value. *)
Definition litNode (ns : list ParsecNode) : Res ParsecNode :=
  match ns with
  | [] => Ok POther
  | PString s :: _ => Ok (PString s)
  | PTerminal t :: _ =>
      val ← litNode_value t;
      Ok (PForm (literalForm val))
  | _ :: _ => interface_conversion
  end.

(** [one2one]. *)
Definition one2one (ns : list ParsecNode) : ParsecNode :=
  match ns with
  | [] => POther
  | n :: _ => n
  end.

(** The arguments of [let] for a list of names and values. *)
Fixpoint let_args (ps : list (string * Value)) : list Value :=
  match ps with
  | [] => []
  | (name, v) :: ps' => VStr name :: v :: let_args ps'
  end.

(** The value that the last pair for [name] gives it, if any. *)
Definition last_binding {A : Type} (ps : list (string * A)) (name : string) : option A :=
  foldl (fun acc p => if decide (p.1 = name) then Some p.2 else acc) None ps.

(** The values of type int64. *)
Definition is_int64 (v : Z) : Prop := (- 2 ^ 63 <= v < 2 ^ 63)%Z.

(** Two libraries that differ at most in what the files hold. *)
Definition same_but_files (L L' : GoLib) : Prop :=
  @rand_Intn L = @rand_Intn L' /\
  @filepath_IsAbs L = @filepath_IsAbs L' /\
  @filepath_Join L = @filepath_Join L' /\
  @filepath_Dir L = @filepath_Dir L' /\
  @filepath_Abs L = @filepath_Abs L'.

(** The names of the builtins, as [initBuiltins] lists them. *)
Definition builtin_names : list string :=
  ["let"; "letr"; "global"; "weigh"; "bag"; "range"; "rangef"; "ranget";
   "choice"; "uuid"; "inc"; "dec"; "len"; "sprintf"].

End MonsterMore.

(** ** More sample inputs *)

Module Sample2.

Import Sample.

(** A scope where [n] is 3 and [m] is 7 in the global layer, and the
    scope after [inc(n)]. *)
Definition global_n3 : State :=
  mkState {["_globals" := VScope (<["n" := VInt 3]> {["m" := VInt 7]})]} ∅.
Definition global_n4 : State :=
  mkState {["_globals" := VScope (<["n" := VInt 4]> {["m" := VInt 7]})]} ∅.

(** The records of the bag file names.csv, and the state after one
    call of [bag] on it from [bag_state]. *)
Definition names_records : list (list string) := [["alice"; "1"]; ["bob"; "2"]].
Definition bag_state_after : State :=
  mkState (Scope_SetRandom (scope bag_state) (mkRand 2))
          {["/bags/names.csv" := names_records]}.

(** The library of the samples with every file gone. *)
Definition no_files_lib : GoLib := {|
  fmt_v := Demo.Sprint;
  rand_Intn := Demo.Intn;
  rand_Float64 := Demo.Float64;
  filepath_IsAbs := Demo.IsAbs;
  filepath_Join := Demo.Join;
  filepath_Dir := Demo.Dir;
  filepath_Abs := Demo.Abs;
  os_Open := fun _ => None;
  csv_ReadAll := Demo.ReadAll;
  absent_builtin := Demo.absent
|}.

(** A reference to a name that nothing binds. *)
Definition zz_ref : Form := refNode (mkTerminal "REF" "$zz").

(** The states after the sub-forms of the rule ["a" "b"]. *)
Definition a_state : State := mkState {["#0" := VStr "a"]} ∅.
Definition ab_state : State := mkState (<["#1" := VStr "b"]> {["#0" := VStr "a"]}) ∅.

End Sample2.

(** * Properties *)

Section MonsterTheory.

Context `{GoLib}.

(** ** Scopes *)

Lemma Scope_Get_local (sc : Scope) name v :
  sc !! name = Some v -> Scope_Get sc name = Some (v, false).
Proof. intros Hl. unfold Scope_Get. by rewrite Hl. Qed.

Lemma Scope_Get_global (sc : Scope) name g v :
  sc !! name = None -> sc !! "_globals" = Some (VScope g) -> g !! name = Some v ->
  Scope_Get sc name = Some (v, true).
Proof. intros Hl Hg Hv. unfold Scope_Get. by rewrite Hl, Hg, Hv. Qed.

Lemma Scope_Get_unbound (sc : Scope) name :
  unbound sc name -> Scope_Get sc name = None.
Proof.
  intros [Hl Hg]. unfold Scope_Get. rewrite Hl.
  destruct (sc !! "_globals") as [[]|] eqn:E; try done.
  by rewrite (Hg _ eq_refl).
Qed.

Lemma Scope_Get_None_unbound (sc : Scope) name :
  Scope_Get sc name = None -> unbound sc name.
Proof.
  unfold Scope_Get, unbound. destruct (sc !! name); [done|].
  intros Hg. split; [done|]. intros g E. rewrite E in Hg.
  by destruct (g !! name).
Qed.

(** ** Fuel

    Fuel only bounds the depth of the evaluation: a result reached with
    some fuel is the result with any more. *)

Lemma res_le_refl {A} (r : Res A) : res_le r r.
Proof. by right. Qed.

Lemma res_le_bind {A B} (r r' : Res A) (k k' : A -> Res B) :
  res_le r r' -> (forall a, res_le (k a) (k' a)) ->
  res_le (r ≫= k) (r' ≫= k').
Proof.
  intros [->| <-] Hk; [by left|].
  destruct r as [a| |]; simpl; [apply Hk|by right|by left].
Qed.

Lemma formNode_args_mono ev ev' ns st :
  ev_le ev ev' -> res_le (formNode_args ev ns st) (formNode_args ev' ns st).
Proof.
  intros Hle. revert st. induction ns as [|n ns IH]; intros st; [apply res_le_refl|].
  simpl. apply res_le_bind; [apply Hle|]. intros [v st1].
  apply res_le_bind; [apply IH|]. intros [vs st2]. apply res_le_refl.
Qed.

Lemma ruleNode_loop_mono ev ev' rats i str st :
  ev_le ev ev' -> res_le (ruleNode_loop ev rats i str st) (ruleNode_loop ev' rats i str st).
Proof.
  intros Hle. revert i str st.
  induction rats as [|rat rats IH]; intros i str st; [apply res_le_refl|].
  simpl. apply res_le_bind; [apply Hle|]. intros [val st1].
  destruct (is_nil val); [apply res_le_refl|apply IH].
Qed.

Lemma EvalForms_mono ev ev' name st forms :
  ev_le ev ev' -> res_le (EvalForms ev name st forms) (EvalForms ev' name st forms).
Proof.
  intros Hle. unfold EvalForms.
  destruct (match eligible _ forms with [] => _ | _ => _ end) as [W remaining].
  destruct remaining; [apply res_le_refl|].
  destruct (Scope_GetRandom (scope st)); [|apply res_le_refl].
  destruct (rand_Float64 _) as [x rnd'].
  destruct (pick_rule _ _); [|apply res_le_refl].
  destruct (forms !! _); [apply Hle|apply res_le_refl].
Qed.

Lemma eval_nonterminal_mono ev ev' what name st :
  ev_le ev ev' ->
  res_le (eval_nonterminal ev what name st) (eval_nonterminal ev' what name st).
Proof.
  intros Hle. unfold eval_nonterminal.
  destruct (Scope_GetNonTerminal (scope st) name); [|apply res_le_refl].
  apply res_le_bind; [by apply EvalForms_mono|]. intros [val st1]. apply res_le_refl.
Qed.

Lemma Form_Eval_S_mono fuel : ev_le (Form_Eval fuel) (Form_Eval (S fuel)).
Proof.
  induction fuel as [|fuel IH]; intros f st args; [by left|].
  change (Form_Eval (S fuel) f st args) with
    (match fn f with
     | fn_builtin b => call_builtin b st args
     | fn_formNode_builtin form ns =>
         '(args', st1) ← formNode_args (Form_Eval fuel) ns st;
         Form_Eval fuel form st1 args'
     | fn_formNode_nonterm name _ =>
         eval_nonterminal (Form_Eval fuel) "unknown form name " name st
     | fn_ruleNode rats => ruleNode_loop (Form_Eval fuel) rats 0 "" st
     | fn_const v => Ok (v, st)
     | fn_refNode value => eval_ref value st
     | fn_identNode name =>
         eval_nonterminal (Form_Eval fuel) "unknown nonterminal " name st
     end).
  change (Form_Eval (S (S fuel)) f st args) with
    (match fn f with
     | fn_builtin b => call_builtin b st args
     | fn_formNode_builtin form ns =>
         '(args', st1) ← formNode_args (Form_Eval (S fuel)) ns st;
         Form_Eval (S fuel) form st1 args'
     | fn_formNode_nonterm name _ =>
         eval_nonterminal (Form_Eval (S fuel)) "unknown form name " name st
     | fn_ruleNode rats => ruleNode_loop (Form_Eval (S fuel)) rats 0 "" st
     | fn_const v => Ok (v, st)
     | fn_refNode value => eval_ref value st
     | fn_identNode name =>
         eval_nonterminal (Form_Eval (S fuel)) "unknown nonterminal " name st
     end).
  destruct (fn f); try apply res_le_refl.
  - apply res_le_bind; [by apply formNode_args_mono|]. intros [args' st1]. apply IH.
  - by apply eval_nonterminal_mono.
  - by apply ruleNode_loop_mono.
  - by apply eval_nonterminal_mono.
Qed.

(** A value or a panic reached with some fuel is reached with more. *)
Lemma Form_Eval_fuel_mono fuel fuel' f st args :
  fuel <= fuel' ->
  Form_Eval fuel f st args <> OutOfFuel ->
  Form_Eval fuel' f st args = Form_Eval fuel f st args.
Proof.
  induction 1 as [|fuel' _ IH]; intros Hres; [done|].
  destruct (Form_Eval_S_mono fuel' f st args) as [Hout| <-]; [|by apply IH].
  rewrite IH in Hout by done. done.
Qed.

Lemma Form_Eval_enough fuel fuel' f st args r :
  fuel <= fuel' ->
  Form_Eval fuel f st args = Ok r ->
  Form_Eval fuel' f st args = Ok r.
Proof.
  intros Hle Hok. rewrite (Form_Eval_fuel_mono fuel fuel') by (done || by rewrite Hok).
  done.
Qed.

(** ** Terminals *)

(** C9: an uppercase terminal other than DQ and NL compiles, in rule
    and in form-argument position, to a ##term form that evaluates to
    the empty string in every state, without a panic. *)
Theorem termNode_unknown_literal (value : string) (fuel : nat) (st : State) :
  value <> "DQ" -> value <> "NL" ->
  ruletokNode [PTerminal (mkTerminal "TERM" value)] = Ok (termNode (mkTerminal "TERM" value)) /\
  formtokNode [PTerminal (mkTerminal "TERM" value)] = Ok (termNode (mkTerminal "TERM" value)) /\
  Name (termNode (mkTerminal "TERM" value)) = "##term" /\
  Form_Eval (S fuel) (termNode (mkTerminal "TERM" value)) st [] = Ok (VStr "", st).
Proof.
  intros Hdq Hnl. repeat split.
  unfold termNode, literals. simpl.
  rewrite lookup_insert_ne by congruence.
  rewrite lookup_insert_ne by congruence.
  by rewrite lookup_empty.
Qed.

(** ** References *)

(** C5: a reference [$x] evaluates to the scope lookup of [x], a
    reference [#x] to the scope lookup of [#x], local layer first, then
    global; when the name looked up is bound in neither layer the
    evaluation panics. *)
Theorem refNode_eval (x : string) (fuel : nat) (st : State) :
  (forall v, scope st !! x = Some v ->
     Form_Eval (S fuel) (refNode (mkTerminal "REF" (String "$" x))) st [] = Ok (v, st)) /\
  (forall g v, scope st !! x = None -> scope st !! "_globals" = Some (VScope g) ->
     g !! x = Some v ->
     Form_Eval (S fuel) (refNode (mkTerminal "REF" (String "$" x))) st [] = Ok (v, st)) /\
  (unbound (scope st) x ->
     Form_Eval (S fuel) (refNode (mkTerminal "REF" (String "$" x))) st []
     = Panic ("unknown reference $" +:+ x +:+ nl)) /\
  (forall v, scope st !! (String "#" x) = Some v ->
     Form_Eval (S fuel) (refNode (mkTerminal "REF" (String "#" x))) st [] = Ok (v, st)) /\
  (forall g v, scope st !! (String "#" x) = None -> scope st !! "_globals" = Some (VScope g) ->
     g !! (String "#" x) = Some v ->
     Form_Eval (S fuel) (refNode (mkTerminal "REF" (String "#" x))) st [] = Ok (v, st)) /\
  (unbound (scope st) (String "#" x) ->
     Form_Eval (S fuel) (refNode (mkTerminal "REF" (String "#" x))) st []
     = Panic ("unknown argument #" +:+ x +:+ nl)).
Proof.
  repeat split.
  - intros v Hv. simpl. by rewrite (Scope_Get_local _ _ _ Hv).
  - intros g v Hl Hg Hv. simpl. by rewrite (Scope_Get_global _ _ _ _ Hl Hg Hv).
  - intros Hu. simpl. rewrite (Scope_Get_unbound _ _ Hu). reflexivity.
  - intros v Hv. simpl. by rewrite (Scope_Get_local _ _ _ Hv).
  - intros g v Hl Hg Hv. simpl. by rewrite (Scope_Get_global _ _ _ _ Hl Hg Hv).
  - intros Hu. simpl. rewrite (Scope_Get_unbound _ _ Hu). reflexivity.
Qed.

(** A reference token compiles to the form of [refNode], in a rule and
    in the arguments of a form. *)
Lemma ref_token_compiles (value : string) :
  ruletokNode [PTerminal (mkTerminal "REF" value)] = Ok (refNode (mkTerminal "REF" value)) /\
  formtokNode [PTerminal (mkTerminal "REF" value)] = Ok (refNode (mkTerminal "REF" value)).
Proof. by split. Qed.

(** ** Inc *)

Lemma add64_in_range (v b : Z) :
  (- 2 ^ 63 <= v + b < 2 ^ 63)%Z -> add64 v b = (v + b)%Z.
Proof.
  intros Hr. unfold add64, wrap64.
  rewrite Z.mod_small by lia. lia.
Qed.

(** C6: [inc(name)] and [inc(name, by)] on a variable bound to an
    integer replace its value, in the layer where Get finds it (local
    before global), by the int64 sum of the old value and the increment
    (1 when none is given), and return the empty string; on a name bound
    in neither layer they change nothing and return the empty string. *)
Theorem Inc_updates_in_place (st : State) (name : string) (rest : list Value) (by_ : Z) :
  (rest = [] /\ by_ = 1%Z) \/ (exists more, rest = VInt by_ :: more) ->
  (forall v, scope st !! name = Some (VInt v) ->
     builtin_Inc st (VStr name :: rest)
     = Ok (VStr "", with_scope st (<[name := VInt (add64 v by_)]> (scope st)))) /\
  (forall g v, scope st !! name = None -> scope st !! "_globals" = Some (VScope g) ->
     g !! name = Some (VInt v) ->
     builtin_Inc st (VStr name :: rest)
     = Ok (VStr "", with_scope st
             (<["_globals" := VScope (<[name := VInt (add64 v by_)]> g)]> (scope st)))) /\
  (unbound (scope st) name -> builtin_Inc st (VStr name :: rest) = Ok (VStr "", st)) /\
  (forall v, (- 2 ^ 63 <= v + by_ < 2 ^ 63)%Z -> add64 v by_ = (v + by_)%Z).
Proof.
  intros Hrest.
  assert (Hby : match rest with
                | [] => Ok 1%Z
                | VInt b :: _ => Ok b
                | _ :: _ => interface_conversion
                end = Ok by_).
  { destruct Hrest as [[-> ->]|[more ->]]; reflexivity. }
  repeat split.
  - intros v Hv. unfold builtin_Inc. rewrite Hby. simpl.
    by rewrite (Scope_Get_local _ _ _ Hv).
  - intros g v Hl Hg Hv. unfold builtin_Inc. rewrite Hby. simpl.
    rewrite (Scope_Get_global _ _ _ _ Hl Hg Hv).
    unfold Scope_Set. by rewrite Hg.
  - intros Hu. unfold builtin_Inc. rewrite Hby. simpl.
    by rewrite (Scope_Get_unbound _ _ Hu).
  - intros v. apply add64_in_range.
Qed.

(** ** Rules *)

Lemma append_nil_r (a : string) : a +:+ "" = a.
Proof.
  induction a as [|c a IH]; [done|].
  change (String c (a +:+ "") = String c a). by rewrite IH.
Qed.

Lemma append_assoc (a b c : string) : (a +:+ b) +:+ c = a +:+ (b +:+ c).
Proof.
  induction a as [|x a IH]; [done|].
  change (String x ((a +:+ b) +:+ c) = String x (a +:+ (b +:+ c))). by rewrite IH.
Qed.

Lemma positional_inj (i j : nat) : "#" +:+ Itoa i = "#" +:+ Itoa j -> i = j.
Proof.
  change (String "#" (Itoa i) = String "#" (Itoa j) -> i = j).
  intros [= Heq]. by apply (inj pretty) in Heq.
Qed.

Section Loop.

Variable ev : Form -> State -> list Value -> Res (Value * State).

(** The loop of a rule, run over sub-forms that all give a value. *)
Lemma ruleNode_loop_steps rats i st vals st' :
  rule_steps ev i rats st vals st' ->
  forall str, ruleNode_loop ev rats i str st = Ok (VStr (str +:+ concat_fmt vals), st').
Proof.
  induction 1 as [i st|i rat rats st val st1 vals st2 Hev Hnil _ IH]; intros str.
  - simpl. by rewrite append_nil_r.
  - simpl. rewrite Hev. simpl. rewrite Hnil.
    unfold Scope_Set. rewrite IH. by rewrite append_assoc.
Qed.

(** The loop of a rule, run into a sub-form that gives nil. *)
Lemma ruleNode_loop_nil pre rat post i st vals sti st' :
  rule_steps ev i pre st vals sti ->
  ev rat sti [] = Ok (VNil, st') ->
  forall str, ruleNode_loop ev (pre ++ rat :: post) i str st = Ok (VNil, st').
Proof.
  induction 1 as [i st|i rat0 rats st val st1 vals st2 Hev Hnil _ IH]; intros Hrat str.
  - simpl. by rewrite Hrat.
  - simpl. rewrite Hev. simpl. rewrite Hnil.
    unfold Scope_Set. by apply IH.
Qed.

Lemma rule_steps_length rats i st vals st' :
  rule_steps ev i rats st vals st' -> length vals = length rats.
Proof. induction 1; simpl; congruence. Qed.


(** Over sub-forms that leave the positional names alone, the scope
    after the steps holds the values under their positions and is
    unchanged at every other position. *)
Lemma rule_steps_frame rats i st vals st' :
  rule_steps ev i rats st vals st' ->
  Forall (keeps_positional ev) rats ->
  forall j,
    scope st' !! ("#" +:+ Itoa j)
    = if decide (i <= j < i + length rats) then vals !! (j - i)
      else scope st !! ("#" +:+ Itoa j).
Proof.
  induction 1 as [i st|i rat rats st val st1 vals st2 Hev Hnil _ IH]; intros Hkeep j.
  - simpl. case_decide; [lia|done].
  - apply Forall_cons in Hkeep as [Hrat Hrats].
    rewrite (IH Hrats j). simpl.
    destruct (decide (j = i)) as [->|Hji].
    + rewrite decide_False by lia. rewrite decide_True by lia.
      rewrite lookup_insert_eq. by replace (i - i) with 0 by lia.
    + rewrite lookup_insert_ne by (intros Heq; by apply positional_inj in Heq).
      rewrite (Hrat _ _ _ j Hev).
      case_decide.
      * rewrite decide_True by lia.
        replace (j - i) with (S (j - S i)) by lia. done.
      * by rewrite decide_False by lia.
Qed.

End Loop.

Lemma ruleNode_weight_rats fuel cache ns w r rats cache' :
  ruleNode_weight fuel cache ns = Ok (w, r, rats, cache') ->
  rats = ns \/ exists weigh, ns = weigh :: rats.
Proof.
  unfold ruleNode_weight. intros Hw.
  destruct ns as [|weigh [|tok ns]]; try (left; congruence).
  destruct (String.eqb (Name weigh) "weigh"); [|left; congruence].
  right. exists weigh.
  destruct (Form_Eval fuel weigh _ _) as [[v st]| |]; simpl in Hw; try done.
  destruct v; try done.
  destruct (float_at vs 0); simpl in Hw; try done.
  destruct (float_at vs 1); simpl in Hw; try done.
  congruence.
Qed.

(** C1: the rule form that [ruleNode] compiles from an alternative
    evaluates the sub-forms of its body (the tokens, without a leading
    weigh annotation) in list order; sub-form [i], when its result is
    not nil, has its result bound to the local name [#i] before the
    next one runs, and the rule returns the concatenation of the
    renderings of the results; as soon as a sub-form returns nil, the
    rule returns nil. *)
Theorem ruleNode_rule_eval (fuel0 : nat) (cache cache' : gmap string (list (list string)))
    (ns : list Form) (form : Form) :
  ruleNode fuel0 cache ns = Ok (form, cache') ->
  exists rats,
    (rats = ns \/ exists weigh, ns = weigh :: rats) /\
    Name form = "##rule" /\ fn form = fn_ruleNode rats /\
    (forall fuel st vals st',
       rule_steps (Form_Eval fuel) 0 rats st vals st' ->
       forall fuel', fuel < fuel' ->
       Form_Eval fuel' form st [] = Ok (VStr (concat_fmt vals), st')) /\
    (forall fuel st pre rat post vals sti st',
       rats = pre ++ rat :: post ->
       rule_steps (Form_Eval fuel) 0 pre st vals sti ->
       Form_Eval fuel rat sti [] = Ok (VNil, st') ->
       forall fuel', fuel < fuel' ->
       Form_Eval fuel' form st [] = Ok (VNil, st')).
Proof.
  unfold ruleNode. intros Hrule.
  destruct (ruleNode_weight fuel0 cache ns) as [[[[w r] rats] c]| |] eqn:Hw;
    simpl in Hrule; try done.
  injection Hrule as <- <-.
  exists rats. split; [by eapply ruleNode_weight_rats|].
  split; [done|]. split; [done|]. split.
  - intros fuel st vals st' Hsteps fuel' Hfuel.
    apply (Form_Eval_enough (S fuel)); [lia|]. simpl.
    by rewrite (ruleNode_loop_steps _ _ _ _ _ _ Hsteps).
  - intros fuel st pre rat post vals sti st' -> Hsteps Hrat fuel' Hfuel.
    apply (Form_Eval_enough (S fuel)); [lia|]. simpl.
    by rewrite (ruleNode_loop_nil _ _ _ _ _ _ _ _ _ Hsteps Hrat).
Qed.


(** ** Form applications *)

Lemma formNode_args_steps ev ns st vals st' :
  args_steps ev ns st vals st' -> formNode_args ev ns st = Ok (vals, st').
Proof.
  induction 1 as [st|n ns st val st1 vals st2 Hev _ IH]; [done|].
  simpl. rewrite Hev. simpl. by rewrite IH.
Qed.

Lemma formNode_args_inv ev ns st vals st' :
  formNode_args ev ns st = Ok (vals, st') -> args_steps ev ns st vals st'.
Proof.
  revert st vals. induction ns as [|n ns IH]; intros st vals; simpl.
  - intros [= <- <-]. constructor.
  - destruct (ev n st []) as [[val st1]| |] eqn:Hev; simpl; try done.
    destruct (formNode_args ev ns st1) as [[vs st2]| |] eqn:Hargs; simpl; try done.
    intros [= <- <-]. econstructor; eauto.
Qed.

(** Every entry of the table of builtins wraps a function of package
    [builtin] under its own name. *)
Lemma builtins_native name form :
  builtins !! name = Some form -> exists b, form = NewForm name (fn_builtin b).
Proof.
  unfold builtins. intros Hin. apply elem_of_list_to_map_2 in Hin.
  repeat (apply elem_of_cons in Hin as [Hin|Hin];
          [injection Hin as -> ->; eexists; reflexivity|]).
  by apply elem_of_nil in Hin.
Qed.

(** The closure of a builtin application: arguments first, in order,
    then the builtin. *)
Lemma Form_Eval_builtin_application tag name b ns fuel st vals st1 :
  args_steps (Form_Eval (S fuel)) ns st vals st1 ->
  Form_Eval (S (S fuel)) (NewForm tag (fn_formNode_builtin (NewForm name (fn_builtin b)) ns)) st []
  = call_builtin b st1 vals.
Proof.
  intros Hargs.
  change (Form_Eval (S (S fuel)) (NewForm tag (fn_formNode_builtin (NewForm name (fn_builtin b)) ns)) st [])
    with ('(args', st1) ← formNode_args (Form_Eval (S fuel)) ns st;
          Form_Eval (S fuel) (NewForm name (fn_builtin b)) st1 args').
  by rewrite (formNode_args_steps _ _ _ _ _ Hargs).
Qed.

(** C4: a form application [(name args...)] whose name is a registered
    builtin compiles to a form that evaluates the argument forms in
    order and then calls the builtin on the values, whatever
    nonterminals the scope holds; any other name compiles to a form
    tagged [#name] that looks the nonterminal up, evaluates it with
    EvalForms, binds the result to [name] in the local layer and returns
    it, and that panics when the scope has no such nonterminal.  A name
    that [BuildContext] warns about is a nonterminal and a builtin, and
    its application is the builtin's. *)
Theorem formNode_eval (name : string) (ns : list Form) :
  (forall form, builtins !! name = Some form ->
     exists b, form = NewForm name (fn_builtin b) /\
       Name (formNode name ns) = name /\
       forall fuel st vals st1,
         args_steps (Form_Eval (S fuel)) ns st vals st1 ->
         Form_Eval (S (S fuel)) (formNode name ns) st [] = call_builtin b st1 vals) /\
  (builtins !! name = None ->
     Name (formNode name ns) = "#" +:+ name /\
     forall fuel st,
       (forall forms val st1,
          Scope_GetNonTerminal (scope st) name = Some forms ->
          EvalForms (Form_Eval fuel) name st forms = Ok (val, st1) ->
          Form_Eval (S fuel) (formNode name ns) st []
          = Ok (val, with_scope st1 (<[name := val]> (scope st1)))) /\
       (Scope_GetNonTerminal (scope st) name = None ->
          Form_Eval (S fuel) (formNode name ns) st []
          = Panic ("unknown form name " +:+ name +:+ nl))) /\
  (forall nts, name ∈ BuildContext_warnings nts ->
     is_Some (nts !! name) /\
     exists form, builtins !! name = Some form /\
                  fn (formNode name ns) = fn_formNode_builtin form ns).
Proof.
  split; [|split]; cycle 2.
  { intros nts Hwarn. unfold BuildContext_warnings in Hwarn.
    apply elem_of_intersection in Hwarn as [Hnt Hb].
    apply elem_of_dom in Hnt. apply elem_of_dom in Hb as [form Hb].
    split; [done|]. exists form. split; [done|].
    unfold formNode. by rewrite Hb. }
  - intros form Hb. destruct (builtins_native _ _ Hb) as [b ->].
    exists b. unfold formNode. rewrite Hb. repeat split.
    intros fuel st vals st1 Hargs. by apply Form_Eval_builtin_application.
  - intros Hb. unfold formNode. rewrite Hb. split; [done|].
    intros fuel st. split.
    + intros forms val st1 Hnt Hev. simpl. unfold eval_nonterminal.
      rewrite Hnt, Hev. reflexivity.
    + intros Hnt. simpl. unfold eval_nonterminal. by rewrite Hnt.
Qed.

(** ** Bags *)

Lemma Bag_filename_resolves (sc : Scope) filename resolved :
  bag_resolves sc filename resolved -> Bag_filename sc filename = resolved.
Proof.
  unfold Bag_filename.
  destruct 1 as [Habs|bagdir g Habs Hdir|prodfile g Habs Hdir Hprod]; rewrite Habs; simpl.
  - done.
  - by rewrite Hdir.
  - by rewrite Hdir, Hprod.
Qed.

Lemma Bag_pick_cache st records v st' :
  Bag_pick st records = Ok (v, st') -> cacheBagRecords st' = cacheBagRecords st.
Proof.
  unfold Bag_pick. destruct (0 <? length records)%nat; [|by intros [= _ <-]].
  destruct (Scope_GetRandom (scope st)) as [rnd|]; [|done].
  destruct (rand_Intn rnd _) as [k rnd'].
  destruct (if (0 <=? k)%Z then _ else _) as [[|field record]|]; try done;
    by intros [= _ <-].
Qed.

Lemma Bag_pick_value st records v st' :
  Bag_pick st records = Ok (v, st') ->
  (v = VStr "" \/ exists s, v = VStr s /\ first_field records s) /\
  (records = [] -> v = VStr "").
Proof.
  unfold Bag_pick. destruct records as [|record0 records0] eqn:Hrec.
  { simpl. intros [= <- _]. by split; [left|]. }
  rewrite <- Hrec. replace (0 <? length records)%nat with true by (by subst).
  destruct (Scope_GetRandom (scope st)) as [rnd|]; [|done].
  destruct (rand_Intn rnd _) as [k rnd'].
  destruct (0 <=? k)%Z; [|done].
  destruct (records !! Z.to_nat k) as [[|field record]|] eqn:Hk; try done.
  - intros [= <- _]. split; [by left|]. by subst.
  - intros [= <- _]. split; [|by subst].
    right. exists field. split; [done|]. exists record.
    by eapply list_elem_of_lookup_2.
Qed.

(** The cases of [Bag] once the path is known. *)
Lemma builtin_Bag_at st filename more path :
  filepath_Abs (Bag_filename (scope st) filename) = Some path ->
  builtin_Bag st (VStr filename :: more)
  = match cacheBagRecords st !! path with
    | Some records => Bag_pick st records
    | None =>
        records ← readBag path;
        Bag_pick (mkState (scope st) (<[path := records]> (cacheBagRecords st))) records
    end.
Proof. intros Habs. unfold builtin_Bag. by rewrite Habs. Qed.

(** C7: [bag] resolves its file name as described: absolute names
    stand, other names are joined to the [_bagdir] entry when there is
    one and else to the directory of the [_prodfile] entry.  The file
    opened and cached is the one [filepath.Abs] names for the resolved
    name: after a successful call the cache has an entry there, and a
    file missing there is what the panic reports. *)
Theorem Bag_path_resolution (st : State) (filename resolved : string) (more : list Value) :
  bag_resolves (scope st) filename resolved ->
  Bag_filename (scope st) filename = resolved /\
  (forall v st', builtin_Bag st (VStr filename :: more) = Ok (v, st') ->
     exists path, filepath_Abs resolved = Some path /\
                  is_Some (cacheBagRecords st' !! path)) /\
  (forall path, filepath_Abs resolved = Some path ->
     cacheBagRecords st !! path = None -> os_Open path = None ->
     builtin_Bag st (VStr filename :: more) = Panic ("cannot open file " +:+ path +:+ nl)).
Proof.
  intros Hres. pose proof (Bag_filename_resolves _ _ _ Hres) as Hname.
  split; [done|]. split.
  - intros v st' Hbag.
    destruct (filepath_Abs resolved) as [path|] eqn:Habs.
    2:{ unfold builtin_Bag in Hbag. by rewrite Hname, Habs in Hbag. }
    exists path. split; [done|].
    rewrite (builtin_Bag_at _ _ _ path) in Hbag by (by rewrite Hname).
    destruct (cacheBagRecords st !! path) as [records|] eqn:Hhit.
    + apply Bag_pick_cache in Hbag. by rewrite Hbag, Hhit.
    + destruct (readBag path) as [records| |]; simpl in Hbag; try done.
      apply Bag_pick_cache in Hbag. rewrite Hbag. simpl.
      by rewrite lookup_insert_eq.
  - intros path Habs Hmiss Hopen.
    rewrite (builtin_Bag_at _ _ _ path) by (by rewrite Hname).
    rewrite Hmiss. unfold readBag. by rewrite Hopen.
Qed.

Lemma cache_ok_insert cache path records :
  cache_ok cache -> readBag path = Ok records -> cache_ok (<[path := records]> cache).
Proof.
  intros Hok Hread p rs. rewrite lookup_insert.
  case_decide; [|by apply Hok]. subst. by intros [= <-].
Qed.

(** C8: over a cache that holds what the files hold, a value returned
    by [bag(f)] is the first field of a record of the file of [f] or the
    empty string, and it is the empty string when the file has no
    record; the call does return a value when the file can be read and
    the generator draws an index within the records. *)
Theorem Bag_returns_first_field (st : State) (filename : string) (more : list Value) :
  cache_ok (cacheBagRecords st) ->
  (forall v st', builtin_Bag st (VStr filename :: more) = Ok (v, st') ->
     exists path records,
       filepath_Abs (Bag_filename (scope st) filename) = Some path /\
       readBag path = Ok records /\
       (v = VStr "" \/ exists s, v = VStr s /\ first_field records s) /\
       (records = [] -> v = VStr "") /\
       cache_ok (cacheBagRecords st')) /\
  (forall path,
     filepath_Abs (Bag_filename (scope st) filename) = Some path ->
     readBag path = Ok [] ->
     builtin_Bag st (VStr filename :: more)
     = Ok (VStr "", mkState (scope st) (<[path := []]> (cacheBagRecords st)))) /\
  (forall path records rnd,
     filepath_Abs (Bag_filename (scope st) filename) = Some path ->
     readBag path = Ok records ->
     Scope_GetRandom (scope st) = Some rnd ->
     (0 <= (rand_Intn rnd (Z.of_nat (length records))).1 < Z.of_nat (length records))%Z ->
     exists v st', builtin_Bag st (VStr filename :: more) = Ok (v, st')).
Proof.
  intros Hok. split; [|split].
  - intros v st' Hbag.
    destruct (filepath_Abs (Bag_filename (scope st) filename)) as [path|] eqn:Habs.
    2:{ unfold builtin_Bag in Hbag. by rewrite Habs in Hbag. }
    rewrite (builtin_Bag_at _ _ _ path Habs) in Hbag.
    destruct (cacheBagRecords st !! path) as [records|] eqn:Hhit.
    + exists path, records. split; [done|]. split; [by apply Hok|].
      destruct (Bag_pick_value _ _ _ _ Hbag) as [Hv Hempty].
      split; [done|]. split; [done|].
      by rewrite (Bag_pick_cache _ _ _ _ Hbag).
    + destruct (readBag path) as [records| |] eqn:Hread; simpl in Hbag; try done.
      exists path, records. split; [done|]. split; [done|].
      destruct (Bag_pick_value _ _ _ _ Hbag) as [Hv Hempty].
      split; [done|]. split; [done|].
      rewrite (Bag_pick_cache _ _ _ _ Hbag). simpl.
      by apply cache_ok_insert.
  - intros path Habs Hread.
    rewrite (builtin_Bag_at _ _ _ path Habs).
    destruct (cacheBagRecords st !! path) as [records|] eqn:Hhit.
    + pose proof (Hok _ _ Hhit) as Hread'. rewrite Hread in Hread'.
      injection Hread' as <-. rewrite insert_id by done.
      by destruct st.
    + by rewrite Hread.
  - intros path records rnd Habs Hread Hrnd Hrange.
    rewrite (builtin_Bag_at _ _ _ path Habs).
    assert (Hpick : forall st0, Scope_GetRandom (scope st0) = Some rnd ->
                      exists v st', Bag_pick st0 records = Ok (v, st')).
    { intros st0 Hrnd0. unfold Bag_pick. destruct (0 <? length records)%nat; [|eauto].
      rewrite Hrnd0. destruct (rand_Intn rnd _) as [k rnd']. simpl in Hrange.
      replace (0 <=? k)%Z with true by lia.
      destruct (lookup_lt_is_Some_2 records (Z.to_nat k) ltac:(lia)) as [record ->].
      destruct record; eauto. }
    destruct (cacheBagRecords st !! path) as [records'|] eqn:Hhit.
    + pose proof (Hok _ _ Hhit) as Hread'. rewrite Hread in Hread'.
      injection Hread' as <-. by apply Hpick.
    + rewrite Hread. simpl. by apply Hpick.
Qed.

(** ** Weights *)









End MonsterTheory.

(** * The properties on sample inputs *)

Import Sample.

(** C1 on the alternative ["a" "b"]: the rule form evaluates to "ab"
    with [#0] and [#1] bound. *)
Lemma ruleNode_rule_eval_witness :
  Form_Eval (H:=Demo.lib) 2 (plain_rule [a_tok; b_tok]) empty_state []
  = Ok (VStr "ab", mkState (<["#1" := VStr "b"]> (<["#0" := VStr "a"]> ∅)) ∅).
Proof.
  destruct (ruleNode_rule_eval (H:=Demo.lib) 1 ∅ ∅ [a_tok; b_tok]
              (plain_rule [a_tok; b_tok]) eq_refl)
    as (rats & _ & _ & Hfn & Hok & _).
  injection Hfn as <-.
  apply (Hok 1 empty_state [VStr "a"; VStr "b"]); [|lia].
  repeat (econstructor; try reflexivity).
Defined.





(** C4 on [(inc n)] where [n] is 3 in a scope that also has a
    nonterminal [inc]: the builtin runs; and on [(nosuch)] in a scope
    without such a nonterminal. *)
Lemma formNode_eval_witness :
  Scope_GetNonTerminal (collide_scope 3) "inc" = Some [plain_rule [x_tok]] /\
  Form_Eval (H:=Demo.lib) 2 (formNode "inc" [formtok_form "n"]) (mkState (collide_scope 3) ∅) []
  = Ok (VStr "", mkState (collide_scope 4) ∅) /\
  Form_Eval (H:=Demo.lib) 1 (formNode "nosuch" []) n3_state []
  = Panic ("unknown form name nosuch" +:+ nl).
Proof.
  split; [reflexivity|]. split.
  - destruct (proj1 (formNode_eval (H:=Demo.lib) "inc" [formtok_form "n"]) _ eq_refl)
      as (b & Hb & _ & Hev).
    injection Hb as <-.
    rewrite (Hev 0 (mkState (collide_scope 3) ∅) [VStr "n"] (mkState (collide_scope 3) ∅)).
    + reflexivity.
    + repeat (econstructor; try reflexivity).
  - destruct (proj1 (proj2 (formNode_eval (H:=Demo.lib) "nosuch" [])) eq_refl) as [_ Hev].
    apply (Hev 0 n3_state). reflexivity.
Defined.

(** C5 on [$n] and [#n] where [n] is 3. *)
Lemma refNode_eval_witness :
  Form_Eval (H:=Demo.lib) 1 (refNode (mkTerminal "REF" "$n")) n3_state []
  = Ok (VInt 3, n3_state) /\
  Form_Eval (H:=Demo.lib) 1 (refNode (mkTerminal "REF" "#n")) n3_state []
  = Panic ("unknown argument #n" +:+ nl).
Proof.
  destruct (refNode_eval (H:=Demo.lib) "n" 0 n3_state)
    as (Hlocal & _ & _ & _ & _ & Hunbound).
  split.
  - apply Hlocal. reflexivity.
  - apply Hunbound. split; [reflexivity|]. intros g Hg. discriminate Hg.
Defined.

(** C6 on [inc(n)] where [n] is 3. *)
Lemma Inc_updates_in_place_witness :
  builtin_Inc n3_state [VStr "n"] = Ok (VStr "", n4_state).
Proof.
  destruct (Inc_updates_in_place n3_state "n" [] 1%Z (or_introl (conj eq_refl eq_refl)))
    as (Hlocal & _).
  apply (Hlocal 3%Z). reflexivity.
Defined.

(** C7 on [bag(names.csv)] with the bag directory /bags. *)
Lemma Bag_path_resolution_witness :
  Bag_filename (H:=Demo.lib) (scope bag_state) "names.csv" = "/bags/names.csv".
Proof.
  apply (Bag_path_resolution (H:=Demo.lib) bag_state "names.csv" "/bags/names.csv" []).
  apply (bag_resolves_bagdir (H:=Demo.lib) (scope bag_state) "names.csv" "/bags" false);
    reflexivity.
Defined.

(** C8 on [bag(empty.csv)], a file without records. *)
Lemma Bag_returns_first_field_witness :
  builtin_Bag (H:=Demo.lib) bag_state [VStr "empty.csv"]
  = Ok (VStr "", mkState (scope bag_state) {["/bags/empty.csv" := []]}).
Proof.
  destruct (Bag_returns_first_field (H:=Demo.lib) bag_state "empty.csv" [])
    as (_ & Hempty & _).
  - intros path records Hhit. discriminate Hhit.
  - apply (Hempty "/bags/empty.csv"); reflexivity.
Defined.

(** C9 on the terminal FOO. *)
Lemma termNode_unknown_literal_witness :
  Form_Eval (H:=Demo.lib) 1 (termNode (mkTerminal "TERM" "FOO")) empty_state []
  = Ok (VStr "", empty_state).
Proof.
  apply (termNode_unknown_literal (H:=Demo.lib) "FOO" 0 empty_state); discriminate.
Defined.

(** The sample tokens leave the positional names alone. *)
Lemma string_form_keeps_positional str :
  keeps_positional (Form_Eval (H:=Demo.lib) 1) (string_form str).
Proof. intros st val st' j Hev. simpl in Hev. by injection Hev as _ <-. Qed.



(** ** Two grammars, end to end *)

(** [s : "hello" .] generates hello. *)
Example hello_grammar_output :
  value_of (Form_Eval (H:=Demo.lib) 3 (formNode "s" []) (context hello_grammar) [])
  = Ok (VStr "hello").
Proof. reflexivity. Qed.

(** [s : (let n 3) a .  a : (inc n) $n .] generates 4. *)
Example counter_grammar_output :
  value_of (Form_Eval (H:=Demo.lib) 6 (formNode "s" []) (context counter_grammar) [])
  = Ok (VStr "4").
Proof. reflexivity. Qed.

(** * Further properties of the program *)

Section MonsterCoverage.

Context `{GoLib} `{Strconv}.

(** ** Let *)

Lemma Let_loop_pairs (ps : list (string * Value)) (sc : Scope) :
  Let_loop sc (let_args ps) = Ok (foldl (fun sc p => <[p.1 := p.2]> sc) sc ps).
Proof.
  revert sc. induction ps as [|[name v] ps IH]; intros sc; [done|].
  simpl. by rewrite IH.
Qed.

Lemma foldl_insert_lookup {A} (ps : list (string * A)) (sc : gmap string A) (name : string) :
  foldl (fun sc p => <[p.1 := p.2]> sc) sc ps !! name
  = foldl (fun acc p => if decide (p.1 = name) then Some p.2 else acc) (sc !! name) ps.
Proof.
  revert sc. induction ps as [|[n v] ps IH]; intros sc; [done|].
  simpl. rewrite IH. f_equal. rewrite lookup_insert. by case_decide.
Qed.

Lemma foldl_last_binding {A} (ps : list (string * A)) (name : string) (o : option A) :
  foldl (fun acc p => if decide (p.1 = name) then Some p.2 else acc) o ps
  = match last_binding ps name with Some v => Some v | None => o end.
Proof.
  unfold last_binding. revert o.
  induction ps as [|[n v] ps IH] using rev_ind; intros o; [done|].
  rewrite !foldl_app. simpl. case_decide; [done|]. apply IH.
Qed.

(** X1: [let] on names and values binds them, in order, in the local
    layer and returns the empty string: afterwards a name is bound to
    the value of its last pair, whatever the global layer holds, every
    other entry of the scope is as before, and the bag cache is
    untouched. *)
Theorem Let_binds_pairs (st : State) (ps : list (string * Value)) :
  exists st',
    builtin_Let st (let_args ps) = Ok (VStr "", st') /\
    cacheBagRecords st' = cacheBagRecords st /\
    (forall name v, last_binding ps name = Some v ->
       Scope_Get (scope st') name = Some (v, false)) /\
    (forall name, last_binding ps name = None ->
       scope st' !! name = scope st !! name).
Proof.
  exists (with_scope st (foldl (fun sc p => <[p.1 := p.2]> sc) (scope st) ps)).
  split; [|split; [done|split]].
  - unfold builtin_Let. by rewrite Let_loop_pairs.
  - intros name v Hlast. apply Scope_Get_local. simpl.
    by rewrite foldl_insert_lookup, foldl_last_binding, Hlast.
  - intros name Hlast. simpl.
    by rewrite foldl_insert_lookup, foldl_last_binding, Hlast.
Qed.

(** X2: [let] panics on a name without a value (an odd number of
    arguments) and on a name that is not a string, also when the pairs
    before it are well formed. *)
Theorem Let_malformed (st : State) (ps : list (string * Value)) :
  (forall name,
     builtin_Let st (let_args ps ++ [VStr name]) = index_out_of_range) /\
  (forall v rest, (forall s, v <> VStr s) ->
     builtin_Let st (let_args ps ++ v :: rest) = interface_conversion).
Proof.
  split.
  - intros name. unfold builtin_Let.
    assert (Hloop : forall sc, Let_loop sc (let_args ps ++ [VStr name]) = index_out_of_range).
    { induction ps as [|[n v] ps IH]; intros sc; [done|]. simpl. apply IH. }
    by rewrite Hloop.
  - intros v rest Hv. unfold builtin_Let.
    assert (Hloop : forall sc, Let_loop sc (let_args ps ++ v :: rest) = interface_conversion).
    { induction ps as [|[n w] ps IH]; intros sc.
      - simpl. destruct v; try done. by destruct (Hv s).
      - simpl. apply IH. }
    by rewrite Hloop.
Qed.

(** X3: after [(let name v)] the reference [$name] evaluates to [v] in
    the state [let] left, also when the global layer binds the same
    name: the local binding shadows it. *)
Theorem Let_then_ref (st : State) (name : string) (v : Value) (fuel : nat) :
  exists st1,
    Form_Eval (S (S fuel))
      (formNode "let" [NewForm "##formtok" (fn_const (VStr name)); literalForm v]) st []
    = Ok (VStr "", st1) /\
    Form_Eval (S fuel) (refNode (mkTerminal "REF" (String "$" name))) st1 [] = Ok (v, st1) /\
    scope st1 = <[name := v]> (scope st).
Proof.
  exists (with_scope st (<[name := v]> (scope st))). split; [done|]. split; [|done].
  simpl. rewrite (Scope_Get_local _ name v); [done|]. apply lookup_insert_eq.
Qed.

(** ** Inc *)

Lemma wrap64_add_l (x y : Z) : wrap64 (wrap64 x + y) = wrap64 (x + y).
Proof.
  unfold wrap64. f_equal.
  replace (((x + 2 ^ 63) mod 2 ^ 64 - 2 ^ 63 + y + 2 ^ 63))%Z
    with ((x + 2 ^ 63) mod 2 ^ 64 + y)%Z by lia.
  rewrite Zplus_mod_idemp_l. f_equal. lia.
Qed.

Lemma add64_assoc (v a b : Z) : add64 (add64 v a) b = add64 v (add64 a b).
Proof.
  unfold add64. rewrite wrap64_add_l.
  rewrite (Z.add_comm v (wrap64 (a + b))), wrap64_add_l. f_equal. lia.
Qed.

Lemma add64_cancel (v k : Z) : is_int64 v -> add64 (add64 v k) (- k) = v.
Proof.
  unfold is_int64, add64. intros Hv. rewrite wrap64_add_l.
  replace (v + k + - k)%Z with v by lia.
  unfold wrap64. rewrite Z.mod_small by lia. lia.
Qed.

(** What [Inc] does, by the result of [Get]. *)
Lemma builtin_Inc_Get (st : State) (name : string) (b : Z) (more : list Value) :
  builtin_Inc st (VStr name :: VInt b :: more)
  = match Scope_Get (scope st) name with
    | Some (VInt v, g) =>
        Ok (VStr "", with_scope st (Scope_Set (scope st) name (VInt (add64 v b)) g))
    | Some (_, _) => interface_conversion
    | None => Ok (VStr "", st)
    end.
Proof.
  unfold builtin_Inc. simpl.
  destruct (Scope_Get (scope st) name) as [[[] g]|]; reflexivity.
Qed.

(** The three cases of [Get], by the layers. *)
Lemma Scope_Get_cases (sc : Scope) (name : string) :
  (exists v, sc !! name = Some v /\ Scope_Get sc name = Some (v, false)) \/
  (exists g v, sc !! name = None /\ sc !! "_globals" = Some (VScope g) /\
               g !! name = Some v /\ Scope_Get sc name = Some (v, true)) \/
  (unbound sc name /\ Scope_Get sc name = None).
Proof.
  destruct (sc !! name) as [v|] eqn:Hl.
  { left. exists v. split; [done|]. by apply Scope_Get_local. }
  right.
  assert (Hunb : (forall g, sc !! "_globals" = Some (VScope g) -> g !! name = None) ->
                 unbound sc name /\ Scope_Get sc name = None).
  { intros Hg. assert (Hu : unbound sc name) by done.
    split; [done|]. by apply Scope_Get_unbound. }
  destruct (sc !! "_globals") as [gv|] eqn:Hg; [|right; by apply Hunb].
  destruct gv as [| | | | | | | | | |g|]; try (right; by apply Hunb).
  destruct (g !! name) as [v|] eqn:Hv.
  - left. exists g, v. repeat split; try done. by apply Scope_Get_global with g.
  - right. apply Hunb. by intros g' [= <-].
Qed.

(** X4: [inc] panics without arguments, on a name that is not a string,
    on an increment that is not an int64 (before it looks the variable
    up, so also for a variable that does not exist), and on a variable
    bound to a value that is not an int64. *)
Theorem Inc_panics (st : State) (name : string) :
  builtin_Inc st [] = index_out_of_range /\
  (forall v rest, (forall s, v <> VStr s) ->
     builtin_Inc st (v :: rest) = interface_conversion) /\
  (forall b more, (forall z, b <> VInt z) ->
     builtin_Inc st (VStr name :: b :: more) = interface_conversion) /\
  (forall value g rest, Scope_Get (scope st) name = Some (value, g) ->
     (forall z, value <> VInt z) ->
     (rest = [] \/ exists z more, rest = VInt z :: more) ->
     builtin_Inc st (VStr name :: rest) = interface_conversion).
Proof.
  split; [done|]. split; [|split].
  - intros v rest Hv. destruct v; try done. by destruct (Hv s).
  - intros b more Hb. unfold builtin_Inc. destruct b; try done. by destruct (Hb n).
  - intros value g rest Hget Hvalue Hrest. unfold builtin_Inc.
    destruct Hrest as [->|(z & more & ->)]; simpl; rewrite Hget;
      (destruct value; try done; by destruct (Hvalue n)).
Qed.

(** X5: two increments in a row amount to one increment by the int64
    sum: when [inc(name, a)] returns leaving state [st1], [inc(name, b)]
    in [st1] gives what [inc(name, a + b)] gives in the first state. *)
Theorem Inc_twice (st st1 : State) (name : string) (a b : Z) (v : Value) :
  builtin_Inc st [VStr name; VInt a] = Ok (v, st1) ->
  builtin_Inc st1 [VStr name; VInt b] = builtin_Inc st [VStr name; VInt (add64 a b)].
Proof.
  rewrite !builtin_Inc_Get.
  destruct (Scope_Get_cases (scope st) name)
    as [(x & Hl & ->)|[(g & x & Hl & Hg & Hx & ->)|[Hu ->]]].
  - destruct x; try done. intros [= _ <-]. simpl.
    rewrite (Scope_Get_local _ name (VInt (add64 n a))) by apply lookup_insert_eq.
    simpl. by rewrite insert_insert_eq, add64_assoc.
  - destruct x; try done. intros [= _ <-]. simpl. rewrite Hg.
    assert (Hne : name <> "_globals") by (intros ->; congruence).
    rewrite (Scope_Get_global _ name (<[name := VInt (add64 n a)]> g) (VInt (add64 n a))).
    + unfold Scope_Set. rewrite lookup_insert_eq. unfold with_scope. simpl.
      by rewrite !insert_insert_eq, add64_assoc.
    + by rewrite lookup_insert_ne.
    + apply lookup_insert_eq.
    + apply lookup_insert_eq.
  - intros [= _ <-]. by rewrite (Scope_Get_unbound _ _ Hu).
Qed.

(** X6: an increment by [k] followed by an increment by [-k] restores
    the state: the variable, an int64, has its old value again, and so
    has every other entry. *)
Theorem Inc_undo (st st1 : State) (name : string) (k : Z) (v : Value) :
  (forall z g, Scope_Get (scope st) name = Some (VInt z, g) -> is_int64 z) ->
  builtin_Inc st [VStr name; VInt k] = Ok (v, st1) ->
  builtin_Inc st1 [VStr name; VInt (- k)] = Ok (VStr "", st).
Proof.
  intros Hrange. rewrite !builtin_Inc_Get.
  destruct (Scope_Get_cases (scope st) name)
    as [(x & Hl & Hget)|[(g & x & Hl & Hg & Hx & Hget)|[Hu Hget]]]; rewrite Hget.
  - destruct x; try done. intros [= _ <-]. simpl.
    rewrite (Scope_Get_local _ name (VInt (add64 n k))) by apply lookup_insert_eq.
    simpl. rewrite insert_insert_eq, add64_cancel by (by eapply Hrange).
    rewrite (insert_id (scope st) name (VInt n) Hl). unfold with_scope. simpl.
    by destruct st.
  - destruct x; try done. intros [= _ <-]. simpl. rewrite Hg.
    assert (Hne : name <> "_globals") by (intros ->; congruence).
    rewrite (Scope_Get_global _ name (<[name := VInt (add64 n k)]> g) (VInt (add64 n k))).
    + unfold Scope_Set. rewrite lookup_insert_eq. unfold with_scope. simpl.
      rewrite !insert_insert_eq, add64_cancel by (by eapply Hrange).
      rewrite (insert_id g name (VInt n) Hx).
      rewrite (insert_id (scope st) "_globals" (VScope g) Hg). by destruct st.
    + by rewrite lookup_insert_ne.
    + apply lookup_insert_eq.
    + apply lookup_insert_eq.
  - intros [= _ <-]. by rewrite Hget.
Qed.

(** X7: [inc] changes at most the one variable: when it returns, it
    returns the empty string, the bag cache is as before, the variable
    is bound exactly when it was bound before (none is created), and
    [Get] finds for every other name what it found before. *)
Theorem Inc_frame (st st' : State) (name : string) (rest : list Value) (v : Value) :
  builtin_Inc st (VStr name :: rest) = Ok (v, st') ->
  v = VStr "" /\
  cacheBagRecords st' = cacheBagRecords st /\
  (is_Some (Scope_Get (scope st') name) <-> is_Some (Scope_Get (scope st) name)) /\
  (forall other, other <> name -> other <> "_globals" ->
     Scope_Get (scope st') other = Scope_Get (scope st) other).
Proof.
  unfold builtin_Inc.
  destruct (match rest with [] => Ok 1%Z | VInt b :: _ => Ok b | _ :: _ => interface_conversion end)
    as [b| |]; simpl; try done.
  destruct (Scope_Get_cases (scope st) name)
    as [(x & Hl & Hget)|[(g & x & Hl & Hg & Hx & Hget)|[Hu Hget]]]; rewrite Hget.
  - destruct x; try done. intros [= <- <-]. simpl.
    split; [done|]. split; [done|]. split.
    + rewrite (Scope_Get_local _ name (VInt (add64 n b))) by apply lookup_insert_eq.
      split; eauto.
    + intros other Hne Hng. unfold Scope_Get.
      rewrite lookup_insert_ne by done.
      destruct (decide (name = "_globals")) as [->|Hn].
      * rewrite lookup_insert_eq, Hl. done.
      * by rewrite (lookup_insert_ne _ name "_globals") by done.
  - destruct x; try done. intros [= <- <-]. simpl. rewrite Hg.
    assert (Hne : name <> "_globals") by (intros ->; congruence).
    split; [done|]. split; [done|]. split.
    + rewrite (Scope_Get_global _ name (<[name := VInt (add64 n b)]> g) (VInt (add64 n b)));
        [|by rewrite lookup_insert_ne|apply lookup_insert_eq|apply lookup_insert_eq].
      split; eauto.
    + intros other Hno Hng. unfold Scope_Get.
      rewrite (lookup_insert_ne _ "_globals" other) by done.
      rewrite lookup_insert_eq, Hg. by rewrite lookup_insert_ne.
  - intros [= <- <-]. rewrite Hget. by repeat split.
Qed.

(** X18: [let] of an integer followed by [inc] of the same name leaves
    the name bound, in the local layer, to the int64 sum; the rest of
    the scope, the global layer with it, is as before the two calls. *)
Theorem Let_then_Inc (st : State) (name : string) (z b : Z) :
  exists st1 st2,
    builtin_Let st [VStr name; VInt z] = Ok (VStr "", st1) /\
    builtin_Inc st1 [VStr name; VInt b] = Ok (VStr "", st2) /\
    scope st2 = <[name := VInt (add64 z b)]> (scope st) /\
    cacheBagRecords st2 = cacheBagRecords st.
Proof.
  exists (with_scope st (<[name := VInt z]> (scope st))),
         (with_scope st (<[name := VInt (add64 z b)]> (scope st))).
  split; [done|]. split; [|done].
  rewrite builtin_Inc_Get. simpl.
  rewrite (Scope_Get_local _ name (VInt z)) by apply lookup_insert_eq.
  simpl. unfold with_scope. simpl. by rewrite insert_insert_eq.
Qed.

(** ** Bag *)

Lemma Bag_pick_frame st records v st' :
  Bag_pick st records = Ok (v, st') ->
  (exists s, v = VStr s) /\
  (forall k, k <> "_random" -> scope st' !! k = scope st !! k).
Proof.
  unfold Bag_pick. destruct (0 <? length records)%nat; [|intros [= <- <-]; eauto].
  destruct (Scope_GetRandom (scope st)) as [rnd|]; [|done].
  destruct (rand_Intn rnd _) as [k rnd'].
  destruct (if (0 <=? k)%Z then _ else _) as [[|field record]|]; try done;
    intros [= <- <-]; (split; [eauto|]); intros key Hkey; simpl;
    unfold Scope_SetRandom; by rewrite lookup_insert_ne.
Qed.

(** X9: a call of [bag] that returns gives a string, writes no entry
    of the scope (only the generator under [_random] advances), and
    keeps every entry the bag cache had. *)
Theorem Bag_frame (st st' : State) (args : list Value) (v : Value) :
  builtin_Bag st args = Ok (v, st') ->
  (exists s, v = VStr s) /\
  (forall k, k <> "_random" -> scope st' !! k = scope st !! k) /\
  (forall path records, cacheBagRecords st !! path = Some records ->
     cacheBagRecords st' !! path = Some records).
Proof.
  unfold builtin_Bag. destruct args as [|[] more]; try done.
  destruct (filepath_Abs _) as [path|]; [|done].
  destruct (cacheBagRecords st !! path) as [records|] eqn:Hhit.
  - intros Hpick. destruct (Bag_pick_frame _ _ _ _ Hpick) as [Hv Hsc].
    split; [done|]. split; [done|]. by rewrite (Bag_pick_cache _ _ _ _ Hpick).
  - destruct (readBag path) as [records| |]; simpl; try done.
    intros Hpick. destruct (Bag_pick_frame _ _ _ _ Hpick) as [Hv Hsc].
    split; [done|]. split; [done|].
    rewrite (Bag_pick_cache _ _ _ _ Hpick). simpl.
    intros p rs Hp. rewrite lookup_insert_ne; [done|]. intros <-. congruence.
Qed.

(** X10: the value of [bag] is decided by the draw: when the generator
    draws index [k] within the records of the file, [bag] returns the
    first field of record [k] (the empty string for a record without
    fields), the generator has advanced by that one draw, and the cache
    holds the records of the file. *)
Theorem Bag_draw (st : State) (filename : string) (more : list Value) (path : string)
    (records : list (list string)) (rnd rnd' : Rand) (k : Z) (record : list string) :
  cache_ok (cacheBagRecords st) ->
  filepath_Abs (Bag_filename (scope st) filename) = Some path ->
  readBag path = Ok records ->
  Scope_GetRandom (scope st) = Some rnd ->
  rand_Intn rnd (Z.of_nat (length records)) = (k, rnd') ->
  (0 <= k)%Z ->
  records !! Z.to_nat k = Some record ->
  builtin_Bag st (VStr filename :: more)
  = Ok (VStr (default "" (head record)),
        mkState (Scope_SetRandom (scope st) rnd') (<[path := records]> (cacheBagRecords st))).
Proof.
  intros Hok Habs Hread Hrnd Hdraw Hk Hrec.
  assert (Hpick : forall cache,
            Bag_pick (mkState (scope st) cache) records
            = Ok (VStr (default "" (head record)),
                  mkState (Scope_SetRandom (scope st) rnd') cache)).
  { intros cache. unfold Bag_pick. simpl.
    assert (Hlen : (0 <? length records)%nat = true).
    { apply Nat.ltb_lt. apply lookup_lt_Some in Hrec. lia. }
    rewrite Hlen, Hrnd, Hdraw. replace (0 <=? k)%Z with true by lia.
    rewrite Hrec. by destruct record. }
  rewrite (builtin_Bag_at _ _ _ path Habs).
  destruct (cacheBagRecords st !! path) as [records'|] eqn:Hhit.
  - pose proof (Hok _ _ Hhit) as Hread'. rewrite Hread in Hread'.
    injection Hread' as <-. rewrite insert_id by done.
    destruct st as [sc cache]. apply Hpick.
  - rewrite Hread. simpl. apply Hpick.
Qed.

(** X8: a file that is in the bag cache is not read again: over two
    libraries that differ only in what the files hold, [bag] of a cached
    file gives the same result. *)
Theorem Bag_cached_ignores_files (L L' : GoLib) (st : State) (filename path : string)
    (more : list Value) :
  same_but_files L L' ->
  filepath_Abs (GoLib:=L) (Bag_filename (H:=L) (scope st) filename) = Some path ->
  is_Some (cacheBagRecords st !! path) ->
  builtin_Bag (H:=L) st (VStr filename :: more) = builtin_Bag (H:=L') st (VStr filename :: more).
Proof.
  intros (Hintn & Hisabs & Hjoin & Hdir & Habs) Hpath [records Hhit].
  assert (Hname : Bag_filename (H:=L') (scope st) filename
                  = Bag_filename (H:=L) (scope st) filename).
  { unfold Bag_filename. by rewrite Hisabs, Hjoin, Hdir. }
  unfold builtin_Bag. rewrite Hname, <- Habs, Hpath, Hhit.
  unfold Bag_pick. by rewrite Hintn.
Qed.

(** ** Identifiers and applications *)

(** X11: an identifier in a rule always stands for the nonterminal of
    that name, builtin or not: it evaluates the nonterminal with
    EvalForms and binds the result to the name in the local layer, and
    it panics when the scope has no such nonterminal; for a name that
    is not a builtin and is a nonterminal, the identifier and the
    application [(name ...)] evaluate alike. *)
Theorem identNode_eval (name : string) (fuel : nat) (st : State) :
  (forall forms val st1,
     Scope_GetNonTerminal (scope st) name = Some forms ->
     EvalForms (Form_Eval fuel) name st forms = Ok (val, st1) ->
     Form_Eval (S fuel) (identNode (mkTerminal "IDENT" name)) st []
     = Ok (val, with_scope st1 (<[name := val]> (scope st1)))) /\
  (Scope_GetNonTerminal (scope st) name = None ->
     Form_Eval (S fuel) (identNode (mkTerminal "IDENT" name)) st []
     = Panic ("unknown nonterminal " +:+ name +:+ nl)) /\
  (forall ns, builtins !! name = None ->
     is_Some (Scope_GetNonTerminal (scope st) name) ->
     Form_Eval (S fuel) (identNode (mkTerminal "IDENT" name)) st []
     = Form_Eval (S fuel) (formNode name ns) st []).
Proof.
  split; [|split].
  - intros forms val st1 Hnt Hev. simpl. unfold eval_nonterminal.
    by rewrite Hnt, Hev.
  - intros Hnt. simpl. unfold eval_nonterminal. by rewrite Hnt.
  - intros ns Hb [forms Hnt]. unfold formNode. rewrite Hb. simpl.
    unfold eval_nonterminal. by rewrite Hnt.
Qed.

(** X20: the arguments of the application of a nonterminal are dropped:
    they are not evaluated, so the application gives the same result
    whatever forms stand there. *)
Theorem formNode_nonterminal_ignores_arguments (name : string) (ns ns' : list Form)
    (fuel : nat) (st : State) (args args' : list Value) :
  builtins !! name = None ->
  Form_Eval fuel (formNode name ns) st args = Form_Eval fuel (formNode name ns') st args'.
Proof.
  intros Hb. unfold formNode. rewrite Hb. by destruct fuel.
Qed.

(** ** Tokens *)

Lemma length_append (a b : string) :
  String.length (a +:+ b) = String.length a + String.length b.
Proof.
  induction a as [|c a IH]; [done|].
  change (S (String.length (a +:+ b)) = S (String.length a + String.length b)).
  by rewrite IH.
Qed.

Lemma substring_prefix (a b : string) : substring 0 (String.length a) (a +:+ b) = a.
Proof.
  induction a as [|c a IH]; [by destruct b|].
  change (String c (substring 0 (String.length a) (a +:+ b)) = String c a).
  by rewrite IH.
Qed.

(** The first and the last byte go, whatever they are. *)
Lemma strip_quotes_wrapped (q q' : ascii) (str : string) :
  strip_quotes (String q (str +:+ String q' EmptyString)) = Ok str.
Proof.
  unfold strip_quotes.
  change (String.length (String q (str +:+ String q' EmptyString)))
    with (S (String.length (str +:+ String q' EmptyString))).
  rewrite length_append. simpl String.length.
  replace (2 <=? S (String.length str + 1)) with true by (symmetry; apply Nat.leb_le; lia).
  replace (S (String.length str + 1) - 2) with (String.length str) by lia.
  change (Ok (substring 0 (String.length str) (str +:+ String q' EmptyString)) = Ok str).
  by rewrite substring_prefix.
Qed.

(** X12: a string token evaluates to its text without the first and
    the last byte (the quotes), in a rule and in the arguments of a
    form, in every state and without changing it; a string literal that
    reaches [litNode] as a string is passed on as it is and one that
    reaches it as a STRING terminal becomes a form of the same value; a
    string node of fewer than two bytes makes the parser panic. *)
Theorem string_token_eval (q q' : ascii) (str : string) (fuel : nat) (st : State) :
  exists form lit,
    ruletokNode [PString (String q (str +:+ String q' EmptyString))] = Ok form /\
    formtokNode [PString (String q (str +:+ String q' EmptyString))] = Ok form /\
    Name form = "##string" /\
    Form_Eval (S fuel) form st [] = Ok (VStr str, st) /\
    litNode [PString (String q (str +:+ String q' EmptyString))]
    = Ok (PString (String q (str +:+ String q' EmptyString))) /\
    litNode [PTerminal (mkTerminal "STRING" (String q (str +:+ String q' EmptyString)))]
    = Ok (PForm lit) /\
    Form_Eval (S fuel) lit st [] = Ok (VStr str, st) /\
    (forall n, String.length n < 2 ->
       ruletokNode [PString n] = Panic "slice bounds out of range" /\
       formtokNode [PString n] = Panic "slice bounds out of range").
Proof.
  exists (NewForm "##string" (fn_const (VStr str))), (literalForm (VStr str)).
  unfold ruletokNode, formtokNode, litNode, litNode_value. simpl Terminal_Name.
  simpl Terminal_Value. change (String.eqb "STRING" "INT") with false.
  change (String.eqb "STRING" "HEX") with false.
  change (String.eqb "STRING" "OCT") with false.
  change (String.eqb "STRING" "FLOAT") with false.
  change (String.eqb "STRING" "STRING") with true. cbv iota.
  rewrite strip_quotes_wrapped. repeat split; try done.
  - unfold strip_quotes. by replace (2 <=? String.length n) with false
      by (symmetry; apply Nat.leb_gt; lia).
  - unfold strip_quotes. by replace (2 <=? String.length n) with false
      by (symmetry; apply Nat.leb_gt; lia).
Qed.

(** ** The table of nonterminals *)

Lemma last_binding_app {A} (ps ps' : list (string * A)) (name : string) :
  last_binding (ps ++ ps') name
  = match last_binding ps' name with Some v => Some v | None => last_binding ps name end.
Proof. unfold last_binding at 1. rewrite foldl_app. apply foldl_last_binding. Qed.

Lemma last_binding_absent {A} (ps : list (string * A)) (name : string) :
  name ∉ ps.*1 -> last_binding ps name = None.
Proof.
  induction ps as [|[n v] ps IH] using rev_ind; [done|].
  rewrite fmap_app, not_elem_of_app. intros [Hps Hn].
  rewrite last_binding_app, (IH Hps).
  unfold last_binding. simpl. rewrite decide_False; [done|].
  intros ->. apply Hn. simpl. apply list_elem_of_here.
Qed.

(** X13: in the table [ntermsNode] builds, a nonterminal that is
    defined more than once has the rules of its last definition, the
    earlier ones being dropped without notice, and a name that is not
    defined has no entry. *)
Theorem ntermsNode_last_definition (ns : list (string * list Form)) (name : string) :
  ntermsNode ns !! name = last_binding ns name /\
  (forall before rules after,
     ns = before ++ (name, rules) :: after -> name ∉ after.*1 ->
     ntermsNode ns !! name = Some rules) /\
  (name ∉ ns.*1 -> ntermsNode ns !! name = None).
Proof.
  assert (Hlast : ntermsNode ns !! name = last_binding ns name).
  { unfold ntermsNode. rewrite foldl_insert_lookup, lookup_empty.
    rewrite foldl_last_binding. by destruct (last_binding ns name). }
  split; [done|]. split.
  - intros before rules after -> Hafter. rewrite Hlast.
    rewrite last_binding_app.
    change ((name, rules) :: after) with ([(name, rules)] ++ after).
    rewrite last_binding_app, (last_binding_absent after) by done.
    unfold last_binding at 1. simpl. by rewrite decide_True.
  - intros Hno. rewrite Hlast. by apply last_binding_absent.
Qed.

(** ** Panics *)

Lemma ruleNode_loop_panic ev pre rat post i st vals sti msg :
  rule_steps ev i pre st vals sti ->
  ev rat sti [] = Panic msg ->
  forall str, ruleNode_loop ev (pre ++ rat :: post) i str st = Panic msg.
Proof.
  induction 1 as [i st|i rat0 rats st val st1 vals st2 Hev Hnil _ IH]; intros Hrat str.
  - simpl. by rewrite Hrat.
  - simpl. rewrite Hev. simpl. rewrite Hnil. unfold Scope_Set. by apply IH.
Qed.

Lemma formNode_args_panic ev pre n post st vals st1 msg :
  args_steps ev pre st vals st1 ->
  ev n st1 [] = Panic msg ->
  formNode_args ev (pre ++ n :: post) st = Panic msg.
Proof.
  induction 1 as [st|n0 ns st val st1 vals st2 Hev _ IH]; intros Hn.
  - simpl. by rewrite Hn.
  - simpl. rewrite Hev. simpl. by rewrite IH.
Qed.

(** X14: a panic in a sub-form of a rule is the panic of the rule: when
    the sub-forms before it gave values and it panics, the rule panics
    with the same message, and the sub-forms after it are not run. *)
Theorem rule_panic_propagates (fuel : nat) (form : Form) (pre post : list Form)
    (rat : Form) (vals : list Value) (st sti : State) (msg : string) :
  fn form = fn_ruleNode (pre ++ rat :: post) ->
  rule_steps (Form_Eval fuel) 0 pre st vals sti ->
  Form_Eval fuel rat sti [] = Panic msg ->
  forall fuel', fuel < fuel' -> Form_Eval fuel' form st [] = Panic msg.
Proof.
  intros Hfn Hsteps Hrat fuel' Hfuel.
  assert (Hrun : Form_Eval (S fuel) form st [] = Panic msg).
  { simpl. rewrite Hfn. by apply (ruleNode_loop_panic _ _ _ _ _ _ _ _ _ Hsteps Hrat). }
  rewrite (Form_Eval_fuel_mono (S fuel) fuel') by (lia || by rewrite Hrun). done.
Qed.

(** X15: a panic in an argument of a builtin application is the panic
    of the application: the builtin is not called. *)
Theorem formNode_argument_panic (name : string) (form : Form) (pre post : list Form)
    (n : Form) (fuel : nat) (vals : list Value) (st st1 : State) (msg : string) :
  builtins !! name = Some form ->
  args_steps (Form_Eval (S fuel)) pre st vals st1 ->
  Form_Eval (S fuel) n st1 [] = Panic msg ->
  Form_Eval (S (S fuel)) (formNode name (pre ++ n :: post)) st [] = Panic msg.
Proof.
  intros Hb Hargs Hn. unfold formNode. rewrite Hb.
  change (Form_Eval (S (S fuel)) (NewForm name (fn_formNode_builtin form (pre ++ n :: post))) st [])
    with ('(args', st1) ← formNode_args (Form_Eval (S fuel)) (pre ++ n :: post) st;
          Form_Eval (S fuel) form st1 args').
  by rewrite (formNode_args_panic _ _ _ _ _ _ _ _ Hargs Hn).
Qed.

(** ** Rules *)

(** X16: a rule whose sub-forms all give values, and leave the
    positional names alone, returns in a scope where [#j] is the value
    of sub-form [j] for every sub-form, and where the positional names
    from the number of sub-forms on are as they were before. *)
Theorem rule_binds_positions (fuel : nat) (form : Form) (rats : list Form)
    (vals : list Value) (st st' : State) :
  fn form = fn_ruleNode rats ->
  rule_steps (Form_Eval fuel) 0 rats st vals st' ->
  Forall (keeps_positional (Form_Eval fuel)) rats ->
  Form_Eval (S fuel) form st [] = Ok (VStr (concat_fmt vals), st') /\
  length vals = length rats /\
  (forall j, j < length rats -> scope st' !! ("#" +:+ Itoa j) = vals !! j) /\
  (forall j, length rats <= j ->
     scope st' !! ("#" +:+ Itoa j) = scope st !! ("#" +:+ Itoa j)).
Proof.
  intros Hfn Hsteps Hkeep. split; [|split; [|split]].
  - simpl. rewrite Hfn. by rewrite (ruleNode_loop_steps _ _ _ _ _ _ Hsteps).
  - by eapply rule_steps_length.
  - intros j Hj. rewrite (rule_steps_frame _ _ _ _ _ _ Hsteps Hkeep j).
    rewrite decide_True by lia. by replace (j - 0) with j by lia.
  - intros j Hj. rewrite (rule_steps_frame _ _ _ _ _ _ Hsteps Hkeep j).
    by rewrite decide_False by lia.
Qed.

Lemma float_at_inv rs i x : float_at rs i = Ok x -> rs !! i = Some (VFloat x).
Proof.
  unfold float_at. destruct (rs !! i) as [[]|]; try done. by intros [= ->].
Qed.

(** X17: an alternative of at least two tokens whose first token is
    named weigh is compiled only when that token evaluates, in the
    empty scope, to a list that starts with two floats: these are then
    the weight and the restraint of the rule form, and the body of the
    rule is the rest of the tokens.  In every other case (a panic, a
    value that is no list, a list of fewer than two elements or with
    another value in the first two places) [ruleNode] does not return
    a form. *)
Theorem ruleNode_annotated_inv (fuel : nat) (cache cache' : gmap string (list (list string)))
    (weigh tok : Form) (rest : list Form) (form : Form) :
  Name weigh = "weigh" ->
  ruleNode fuel cache (weigh :: tok :: rest) = Ok (form, cache') ->
  exists w r more st1,
    Form_Eval fuel weigh (mkState ∅ cache) [] = Ok (VList (VFloat w :: VFloat r :: more), st1) /\
    form = mkForm "##rule" (fn_ruleNode (tok :: rest)) w r /\
    cache' = cacheBagRecords st1.
Proof.
  intros Hname. unfold ruleNode, ruleNode_weight. rewrite Hname.
  change (String.eqb "weigh" "weigh") with true. cbv iota.
  destruct (Form_Eval fuel weigh _ _) as [[v st1]| |]; simpl; try done.
  destruct v as [| | | | |rs| | | | | |]; try done.
  destruct (float_at rs 0) as [w| |] eqn:Hw; simpl; try done.
  destruct (float_at rs 1) as [r| |] eqn:Hr; simpl; try done.
  intros [= <- <-]. apply float_at_inv in Hw, Hr.
  destruct rs as [|v0 [|v1 more]]; try done.
  simpl in Hw, Hr. injection Hw as ->. injection Hr as ->.
  by exists w, r, more, st1.
Qed.

(** ** The names of the builtins *)

Lemma builtins_dom (name : string) :
  is_Some (builtins !! name) <-> name ∈ builtin_names.
Proof.
  rewrite <- elem_of_dom. unfold builtins. rewrite dom_list_to_map_L.
  by rewrite elem_of_list_to_set.
Qed.

(** X19: the names [BuildContext] warns about are the nonterminals
    called let, letr, global, weigh, bag, range, rangef, ranget, choice,
    uuid, inc, dec, len or sprintf, and no other; these are also the
    names whose application [formNode] compiles to a builtin call, every
    other name being compiled to the application of a nonterminal. *)
Theorem BuildContext_warnings_exact (nts : NTForms) (name : string) (ns : list Form) :
  (name ∈ BuildContext_warnings nts <-> is_Some (nts !! name) /\ name ∈ builtin_names) /\
  (name ∈ builtin_names -> Name (formNode name ns) = name) /\
  (name ∉ builtin_names -> fn (formNode name ns) = fn_formNode_nonterm name ns).
Proof.
  split; [|split].
  - unfold BuildContext_warnings. rewrite elem_of_intersection, !elem_of_dom.
    by rewrite builtins_dom.
  - intros Hin. apply builtins_dom in Hin as [form Hb]. unfold formNode. by rewrite Hb.
  - intros Hin. unfold formNode. destruct (builtins !! name) as [form|] eqn:Hb; [|done].
    destruct Hin. apply builtins_dom. eauto.
Qed.

End MonsterCoverage.

(** * The further properties on sample inputs *)

Import Sample2.

(** X5 on [inc(n, 1)] then [inc(n, 2)] where [n] is 3. *)
Lemma Inc_twice_witness :
  builtin_Inc n4_state [VStr "n"; VInt 2] = builtin_Inc n3_state [VStr "n"; VInt (add64 1 2)].
Proof. apply (Inc_twice n3_state n4_state "n" 1 2 (VStr "")). reflexivity. Defined.

(** X6 on [inc(n, 1)] then [inc(n, -1)] where [n] is 3. *)
Lemma Inc_undo_witness :
  builtin_Inc n4_state [VStr "n"; VInt (- 1)] = Ok (VStr "", n3_state).
Proof.
  apply (Inc_undo n3_state n4_state "n" 1 (VStr "")).
  - intros z g Hget. vm_compute in Hget. injection Hget as <- _.
    unfold is_int64. lia.
  - reflexivity.
Defined.

(** X7 on [inc(n)] where [n] and [m] are global: [m] stays 7. *)
Lemma Inc_frame_witness :
  builtin_Inc global_n3 [VStr "n"] = Ok (VStr "", global_n4) /\
  Scope_Get (scope global_n4) "m" = Some (VInt 7, true).
Proof.
  split; [reflexivity|].
  destruct (Inc_frame global_n3 global_n4 "n" [] (VStr "") eq_refl) as (_ & _ & _ & Hother).
  rewrite (Hother "m") by discriminate. reflexivity.
Defined.

(** X10 on [bag(names.csv)] with a generator that draws index 1. *)
Lemma Bag_draw_witness :
  builtin_Bag (H:=Demo.lib) bag_state [VStr "names.csv"] = Ok (VStr "bob", bag_state_after).
Proof.
  apply (Bag_draw (H:=Demo.lib) bag_state "names.csv" [] "/bags/names.csv" names_records
           (mkRand 1) (mkRand 2) 1 ["bob"; "2"]); try reflexivity.
  - intros path records Hhit. discriminate Hhit.
  - lia.
Defined.

(** X9 on the same call: the bag directory is still in the scope. *)
Lemma Bag_frame_witness :
  scope bag_state_after !! "_bagdir" = Some (VStr "/bags").
Proof.
  destruct (Bag_frame (H:=Demo.lib) bag_state bag_state_after [VStr "names.csv"] (VStr "bob")
              eq_refl) as (_ & Hscope & _).
  rewrite Hscope by discriminate. reflexivity.
Defined.

(** X8 on a second call after the files are gone. *)
Lemma Bag_cached_ignores_files_witness :
  builtin_Bag (H:=Demo.lib) bag_state_after [VStr "names.csv"]
  = builtin_Bag (H:=no_files_lib) bag_state_after [VStr "names.csv"].
Proof.
  apply (Bag_cached_ignores_files Demo.lib no_files_lib bag_state_after "names.csv"
           "/bags/names.csv" []).
  - repeat split.
  - reflexivity.
  - exists names_records. reflexivity.
Defined.

(** X20 on [(s "x")] and [(s)] in the grammar [s : "hello" .] *)
Lemma formNode_nonterminal_ignores_arguments_witness :
  Form_Eval (H:=Demo.lib) 3 (formNode "s" [x_tok]) (context hello_grammar) []
  = Form_Eval (H:=Demo.lib) 3 (formNode "s" []) (context hello_grammar) [VInt 1].
Proof.
  apply (formNode_nonterminal_ignores_arguments (H:=Demo.lib) "s"). reflexivity.
Defined.

(** X14 on the rule ["a" $zz] where nothing binds [zz]. *)
Lemma rule_panic_propagates_witness :
  Form_Eval (H:=Demo.lib) 2 (plain_rule [a_tok; zz_ref]) empty_state []
  = Panic ("unknown reference $zz" +:+ nl).
Proof.
  apply (rule_panic_propagates (H:=Demo.lib) 1 (plain_rule [a_tok; zz_ref]) [a_tok] [] zz_ref
           [VStr "a"] empty_state a_state).
  - reflexivity.
  - repeat (econstructor; try reflexivity).
  - reflexivity.
  - lia.
Defined.

(** X15 on [(inc $zz)] where nothing binds [zz]. *)
Lemma formNode_argument_panic_witness :
  Form_Eval (H:=Demo.lib) 2 (formNode "inc" [zz_ref]) n3_state []
  = Panic ("unknown reference $zz" +:+ nl).
Proof.
  apply (formNode_argument_panic (H:=Demo.lib) "inc" (NewForm "inc" (fn_builtin BInc))
           [] [] zz_ref 0 [] n3_state n3_state).
  - reflexivity.
  - constructor.
  - reflexivity.
Defined.

(** X16 on the rule ["a" "b"]. *)
Lemma rule_binds_positions_witness :
  Form_Eval (H:=Demo.lib) 2 (plain_rule [a_tok; b_tok]) empty_state []
  = Ok (VStr "ab", ab_state) /\
  scope ab_state !! "#0" = Some (VStr "a") /\
  scope ab_state !! "#1" = Some (VStr "b").
Proof.
  destruct (rule_binds_positions (H:=Demo.lib) 1 (plain_rule [a_tok; b_tok]) [a_tok; b_tok]
              [VStr "a"; VStr "b"] empty_state ab_state) as (Hrun & _ & Hbound & _).
  - reflexivity.
  - repeat (econstructor; try reflexivity).
  - repeat constructor; apply string_form_keeps_positional.
  - split; [exact Hrun|]. split.
    + apply (Hbound 0). simpl. lia.
    + apply (Hbound 1). simpl. lia.
Defined.

(** X17 on [(weigh 0.5 0.25) "x"]. *)
Lemma ruleNode_annotated_inv_witness :
  exists w r more st1,
    Form_Eval (H:=Demo.lib) 2 weigh_tok (mkState ∅ ∅) []
    = Ok (VList (VFloat w :: VFloat r :: more), st1) /\
    weighed_rule = mkForm "##rule" (fn_ruleNode [x_tok]) w r /\
    ∅ = cacheBagRecords st1.
Proof.
  apply (ruleNode_annotated_inv (H:=Demo.lib) 2 ∅ ∅ weigh_tok x_tok [] weighed_rule);
    reflexivity.
Defined.
